(** * mechkit.notation: tensor, Mandel6, Mandel9 and Voigt notation

    A shallow embedding of [mechkit/notation.py] (the classes [Converter]
    and [VoigtConverter]) and the properties its specification states.

    Arrays.  A numpy array is its shape together with its items by index
    tuple; basic slicing, slice assignment and the four einsum contractions
    of the source are written on that representation, with the errors numpy
    raises when an index has too many entries or shapes do not fit.  All
    arrays hold scalars of the converter's dtype (integer arrays, whose
    slice assignment would truncate, are outside the model).

    Scalars.  The converter is parametric in its [dtype], and so is the
    embedding: every definition is written once over a scalar type with the
    arithmetic numpy uses, and is read at two instances,
    - [float64], IEEE binary64, the default dtype of the source, and
    - [exact], the real numbers, the arithmetic that binary64 approximates.
    Statements about shapes, errors, dispatch and the items that no
    arithmetic touches hold at every dtype, binary64 included.  An equality
    proved at [exact] is an identity of exact arithmetic: it says what the
    formulas compute and gives no bound on the rounding, cancellation or
    overflow of a binary64 run.  Binary64 runs are computed at [float64] and
    compared with numpy's own [==] and [np.allclose]. *)

From Stdlib Require Import PrimFloat String.
From Stdlib Require Import List Bool Arith Lia.
From Stdlib Require Import Reals Lra Psatz RNsatz.
From Stdlib Require FloatAxioms.
Import ListNotations.


(* ================================================================== *)
(** * Scalars *)

(** The scalar operations the source uses: the literals [0.] (np.zeros),
    [1.] and [2.], [+] and [*] (inside einsum), unary minus, [/] and
    [np.sqrt]. *)
Class Dtype (S : Type) : Type := {
  np_zero : S;
  np_one  : S;
  np_two  : S;
  np_add  : S -> S -> S;
  np_mul  : S -> S -> S;
  np_neg  : S -> S;
  np_div  : S -> S -> S;
  np_sqrt : S -> S
}.

#[export] Instance float64 : Dtype float := {
  np_zero := 0%float;
  np_one  := 1%float;
  np_two  := 2%float;
  np_add  := PrimFloat.add;
  np_mul  := PrimFloat.mul;
  np_neg  := PrimFloat.opp;
  np_div  := PrimFloat.div;
  np_sqrt := PrimFloat.sqrt
}.

#[export] Instance exact : Dtype R := {
  np_zero := 0%R;
  np_one  := 1%R;
  np_two  := 2%R;
  np_add  := Rplus;
  np_mul  := Rmult;
  np_neg  := Ropp;
  np_div  := Rdiv;
  np_sqrt := sqrt
}.

(* ================================================================== *)
(** * Python exceptions and results *)

(** What a dictionary was indexed with when the lookup failed: a shape
    tuple ([types[inp.shape]]) or a string. *)
Inductive key : Type :=
| KShape (s : list nat)
| KStr (s : string).

Inductive exn : Type :=
| KeyError (k : key)
    (* dict lookup of an absent key; the key is the exception's argument *)
| IndexError (ndim nidx : nat)
    (* "too many indices for array: array is ndim-dimensional,
        but nidx were indexed" *)
| ValueError.
    (* operands whose shapes do not fit (einsum, slice assignment) *)

Inductive result (A : Type) : Type :=
| Ok (a : A)
| Raise (e : exn).
Arguments Ok {A} a.
Arguments Raise {A} e.

Definition bind {A B} (r : result A) (k : A -> result B) : result B :=
  match r with
  | Ok a => k a
  | Raise e => Raise e
  end.

Notation "x <- c ;; k" := (bind c (fun x => k))
  (at level 61, c at next level, right associativity).

Definition raises {A} (r : result A) : Prop := exists e, r = Raise e.

(* ================================================================== *)
(** * Index tuples, slices, dictionaries *)

Fixpoint idx_eqb (p q : list nat) : bool :=
  match p, q with
  | [], [] => true
  | i :: p', j :: q' => (i =? j) && idx_eqb p' q'
  | _, _ => false
  end.

(** Python's [n * t] on a tuple. *)
Definition tuple_mul (n : nat) (t : list nat) : list nat :=
  concat (repeat t n).

(** [np.s_[lo:hi]] and the full slice [:]. *)
Inductive slice : Type :=
| Range (lo hi : nat)
| All.

Definition in_slice (s : slice) (i : nat) : bool :=
  match s with
  | Range lo hi => (lo <=? i) && (i <? hi)
  | All => true
  end.

Definition slice_start (s : slice) : nat :=
  match s with Range lo _ => lo | All => 0 end.

(** Extent of [s] on an axis of extent [n] (bounds are clipped). *)
Definition slice_len (s : slice) (n : nat) : nat :=
  match s with
  | Range lo hi => Nat.min hi n - Nat.min lo n
  | All => n
  end.

(** A position is what stands between the brackets: one slice per leading
    axis, the remaining axes taken whole. *)
Definition position := list slice.

Fixpoint in_position (pos : position) (idx : list nat) : bool :=
  match pos, idx with
  | [], _ => true
  | s :: pos', i :: idx' => in_slice s i && in_position pos' idx'
  | _ :: _, [] => false
  end.

Fixpoint slice_shape (pos : position) (shp : list nat) : list nat :=
  match pos, shp with
  | s :: pos', n :: shp' => slice_len s n :: slice_shape pos' shp'
  | _, _ => shp
  end.

(** From an index of the sliced view to the index of the same element in
    the array, and back. *)
Fixpoint offset_add (pos : position) (idx : list nat) : list nat :=
  match pos, idx with
  | s :: pos', i :: idx' => (slice_start s + i) :: offset_add pos' idx'
  | _, _ => idx
  end.

Fixpoint offset_sub (pos : position) (idx : list nat) : list nat :=
  match pos, idx with
  | s :: pos', i :: idx' => (i - slice_start s) :: offset_sub pos' idx'
  | _, _ => idx
  end.

(** A dict literal, as the list of its items; [d[k]] raises [KeyError(k)]
    when [k] is absent. *)
Fixpoint dict_get {K V} (eqb : K -> K -> bool) (inj : K -> key)
    (d : list (K * V)) (k : K) : result V :=
  match d with
  | [] => Raise (KeyError (inj k))
  | (k', v) :: d' => if eqb k' k then Ok v else dict_get eqb inj d' k
  end.

(* ================================================================== *)
(** * Arrays *)

Section Arrays.
Context {S : Type} {D : Dtype S}.

(** A numpy array: its shape and its items by index tuple.  Only the items
    at indices inside the shape are meaningful. *)
Record ndarray : Type := mk_array {
  shape : list nat;
  item  : list nat -> S
}.

Definition ndim (a : ndarray) : nat := length (shape a).

Fixpoint in_bounds (shp idx : list nat) : bool :=
  match shp, idx with
  | [], [] => true
  | n :: shp', i :: idx' => (i <? n) && in_bounds shp' idx'
  | _, _ => false
  end.

(** Same shape and same items ([np.array_equal]). *)
Definition array_eq (a b : ndarray) : Prop :=
  shape a = shape b /\
  forall idx, in_bounds (shape a) idx = true -> item a idx = item b idx.

(** [np.zeros(shp)] *)
Definition zeros (shp : list nat) : ndarray :=
  mk_array shp (fun _ => np_zero).

(** [a.copy()] *)
Definition copy (a : ndarray) : ndarray :=
  mk_array (shape a) (item a).

(** [a[i, j, ...] = v] with a full integer index *)
Definition setitem (a : ndarray) (idx : list nat) (v : S) : ndarray :=
  mk_array (shape a) (fun i => if idx_eqb i idx then v else item a i).

(** [a[pos]] (basic slicing) *)
Definition getslice (a : ndarray) (pos : position) : result ndarray :=
  if length pos <=? ndim a
  then Ok (mk_array (slice_shape pos (shape a))
                    (fun idx => item a (offset_add pos idx)))
  else Raise (IndexError (ndim a) (length pos)).

(** [a[pos] = v] for an array [v] of the shape of [a[pos]]
    (broadcasting of [v] is not needed by the source and is rejected). *)
Definition setslice (a : ndarray) (pos : position) (v : ndarray)
    : result ndarray :=
  if length pos <=? ndim a
  then if idx_eqb (shape v) (slice_shape pos (shape a))
       then Ok (mk_array (shape a)
                  (fun idx => if in_position pos idx
                              then item v (offset_sub pos idx)
                              else item a idx))
       else Raise ValueError
  else Raise (IndexError (ndim a) (length pos)).

(** [a * c] and [a / c] with a scalar [c] *)
Definition scalar_mul (a : ndarray) (c : S) : ndarray :=
  mk_array (shape a) (fun idx => np_mul (item a idx) c).

Definition scalar_div (a : ndarray) (c : S) : ndarray :=
  mk_array (shape a) (fun idx => np_div (item a idx) c).

(** [sum_range n g] is [g 0 + g 1 + ... + g (n-1)], accumulated from zero. *)
Fixpoint sum_range (n : nat) (g : nat -> S) : S :=
  match n with
  | 0 => np_zero
  | Datatypes.S n' => np_add (sum_range n' g) (g n')
  end.

(** ** The four einsum contractions

    Each label has one extent in all operands that carry it; otherwise
    numpy raises.  (numpy would also broadcast an axis of extent 1; the
    shape dispatch never lets one through, and it is rejected here.) *)

(** [np.einsum('aij, ij ->a', base, inp)] *)
Definition einsum_aij_ij (base inp : ndarray) : result ndarray :=
  match shape base, shape inp with
  | [na; ni; nj], [ni'; nj'] =>
      if (ni =? ni') && (nj =? nj')
      then Ok (mk_array [na] (fun idx =>
             match idx with
             | [a] =>
                 sum_range ni (fun i => sum_range nj (fun j =>
                   np_mul (item base [a; i; j]) (item inp [i; j])))
             | _ => np_zero
             end))
      else Raise ValueError
  | _, _ => Raise ValueError
  end.

(** [np.einsum('aij, ijkl, bkl ->ab', base, inp, base)] *)
Definition einsum_aij_ijkl_bkl (base1 inp base2 : ndarray) : result ndarray :=
  match shape base1, shape inp, shape base2 with
  | [na; ni; nj], [ni'; nj'; nk; nl], [nb; nk'; nl'] =>
      if (ni =? ni') && (nj =? nj') && (nk =? nk') && (nl =? nl')
      then Ok (mk_array [na; nb] (fun idx =>
             match idx with
             | [a; b] =>
                 sum_range ni (fun i => sum_range nj (fun j =>
                 sum_range nk (fun k => sum_range nl (fun l =>
                   np_mul (np_mul (item base1 [a; i; j]) (item inp [i; j; k; l]))
                          (item base2 [b; k; l])))))
             | _ => np_zero
             end))
      else Raise ValueError
  | _, _, _ => Raise ValueError
  end.

(** [np.einsum('ajk, a->jk', base, inp)] *)
Definition einsum_ajk_a (base inp : ndarray) : result ndarray :=
  match shape base, shape inp with
  | [na; nj; nk], [na'] =>
      if na =? na'
      then Ok (mk_array [nj; nk] (fun idx =>
             match idx with
             | [j; k] =>
                 sum_range na (fun a =>
                   np_mul (item base [a; j; k]) (item inp [a]))
             | _ => np_zero
             end))
      else Raise ValueError
  | _, _ => Raise ValueError
  end.

(** [np.einsum('ajk, ab, bmn->jkmn', base, inp, base)] *)
Definition einsum_ajk_ab_bmn (base1 inp base2 : ndarray) : result ndarray :=
  match shape base1, shape inp, shape base2 with
  | [na; nj; nk], [na'; nb], [nb'; nm; nn] =>
      if (na =? na') && (nb =? nb')
      then Ok (mk_array [nj; nk; nm; nn] (fun idx =>
             match idx with
             | [j; k; m; n] =>
                 sum_range na (fun a => sum_range nb (fun b =>
                   np_mul (np_mul (item base1 [a; j; k]) (item inp [a; b]))
                          (item base2 [b; m; n])))
             | _ => np_zero
             end))
      else Raise ValueError
  | _, _, _ => Raise ValueError
  end.

End Arrays.

Arguments ndarray S : clear implicits.

(* ================================================================== *)
(** * class Converter *)

Section Converter.
Context {S : Type} {D : Dtype S}.

Local Open Scope string_scope.

(** ** [__init__] : the attributes of a converter *)

(** [self.factor = np.sqrt(2.) / 2.] *)
Definition factor : S := np_div (np_sqrt np_two) np_two.

Definition DIM : nat := 3.
Definition DIM_MANDEL6 : nat := 6.
Definition DIM_MANDEL9 : nat := 9.

(** [self.SLICE6 = np.s_[0:6]] *)
Definition SLICE6 : slice := Range 0 6.

(** ** [get_mandel_base_sym] *)
Definition get_mandel_base_sym : ndarray S :=
  let B := zeros [DIM_MANDEL6; DIM; DIM] in
  let B := setitem B [0; 0; 0] np_one in
  let B := setitem B [1; 1; 1] np_one in
  let B := setitem B [2; 2; 2] np_one in
  let B := setitem (setitem B [3; 1; 2] factor) [3; 2; 1] factor in
  let B := setitem (setitem B [4; 0; 2] factor) [4; 2; 0] factor in
  let B := setitem (setitem B [5; 0; 1] factor) [5; 1; 0] factor in
  B.

(** ** [get_mandel_base_skw] *)
Definition get_mandel_base_skw : result (ndarray S) :=
  let B := zeros [DIM_MANDEL9; DIM; DIM] in
  B <- setslice B [Range 0 6; All; All] get_mandel_base_sym ;;
  let B := setitem B [6; 1; 2] (np_neg factor) in
  let B := setitem B [6; 2; 1] factor in
  let B := setitem B [7; 0; 2] factor in
  let B := setitem B [7; 2; 0] (np_neg factor) in
  let B := setitem B [8; 0; 1] (np_neg factor) in
  let B := setitem B [8; 1; 0] factor in
  Ok B.

(** [self.BASE6] and [self.BASE9].  The slice assignment in
    [get_mandel_base_skw] is between arrays of shape (6, 3, 3) and
    succeeds (lemma [get_mandel_base_skw_ok] below), so the second match
    arm is never taken. *)
Definition BASE6 : ndarray S := get_mandel_base_sym.

Definition BASE9 : ndarray S :=
  match get_mandel_base_skw with
  | Ok B => B
  | Raise _ => zeros [DIM_MANDEL9; DIM; DIM]
  end.

(** ** [get_type_by_shape] *)
Definition types : list (list nat * string) :=
  let dim := [DIM] in
  let dim_mandel6 := [DIM_MANDEL6] in
  let dim_mandel9 := [DIM_MANDEL9] in
  [ (tuple_mul 2 dim,         "t_2");
    (tuple_mul 4 dim,         "t_4");
    (tuple_mul 1 dim_mandel6, "m6_2");
    (tuple_mul 2 dim_mandel6, "m6_4");
    (tuple_mul 1 dim_mandel9, "m9_2");
    (tuple_mul 2 dim_mandel9, "m9_4") ].

Definition get_type_by_shape (inp : ndarray S) : result string :=
  dict_get idx_eqb KShape types (shape inp).

(** ** The conversion functions *)

Definition pass_through (inp : ndarray S) : result (ndarray S) := Ok inp.

Definition tensor2_to_mandel (inp base : ndarray S) : result (ndarray S) :=
  einsum_aij_ij base inp.

Definition tensor4_to_mandel (inp base : ndarray S) : result (ndarray S) :=
  einsum_aij_ijkl_bkl base inp base.

Definition tensor2_to_mandel6 inp := tensor2_to_mandel inp BASE6.
Definition tensor2_to_mandel9 inp := tensor2_to_mandel inp BASE9.
Definition tensor4_to_mandel6 inp := tensor4_to_mandel inp BASE6.
Definition tensor4_to_mandel9 inp := tensor4_to_mandel inp BASE9.

Definition mandel_2_to_tensor (inp base : ndarray S) : result (ndarray S) :=
  einsum_ajk_a base inp.

Definition mandel_4_to_tensor (inp base : ndarray S) : result (ndarray S) :=
  einsum_ajk_ab_bmn base inp base.

Definition mandel6_2_to_tensor inp := mandel_2_to_tensor inp BASE6.
Definition mandel6_4_to_tensor inp := mandel_4_to_tensor inp BASE6.
Definition mandel9_2_to_tensor inp := mandel_2_to_tensor inp BASE9.
Definition mandel9_4_to_tensor inp := mandel_4_to_tensor inp BASE9.

Definition mandel6_2_to_mandel9 (inp : ndarray S) : result (ndarray S) :=
  let zeros_ := zeros [DIM_MANDEL9] in
  setslice zeros_ [SLICE6] inp.

Definition mandel6_4_to_mandel9 (inp : ndarray S) : result (ndarray S) :=
  let zeros_ := zeros [DIM_MANDEL9; DIM_MANDEL9] in
  setslice zeros_ [SLICE6; SLICE6] inp.

Definition mandel9_2_to_mandel6 (inp : ndarray S) : result (ndarray S) :=
  getslice inp [SLICE6].

Definition mandel9_4_to_mandel6 (inp : ndarray S) : result (ndarray S) :=
  getslice inp [SLICE6; SLICE6].

(** ** Dispatch *)

Definition method := ndarray S -> result (ndarray S).

Definition get_to_mandel6_func (inp : ndarray S) : result method :=
  type_ <- get_type_by_shape inp ;;
  let functions :=
    [ ("t_2",  tensor2_to_mandel6);
      ("t_4",  tensor4_to_mandel6);
      ("m6_2", pass_through);
      ("m6_4", pass_through);
      ("m9_2", mandel9_2_to_mandel6);
      ("m9_4", mandel9_4_to_mandel6) ] in
  dict_get String.eqb KStr functions type_.

Definition get_to_mandel9_func (inp : ndarray S) : result method :=
  type_ <- get_type_by_shape inp ;;
  let functions :=
    [ ("t_2",  tensor2_to_mandel9);
      ("t_4",  tensor4_to_mandel9);
      ("m6_2", mandel6_2_to_mandel9);
      ("m6_4", mandel6_4_to_mandel9);
      ("m9_2", pass_through);
      ("m9_4", pass_through) ] in
  dict_get String.eqb KStr functions type_.

Definition get_to_tensor_func (inp : ndarray S) : result method :=
  type_ <- get_type_by_shape inp ;;
  let functions :=
    [ ("t_2",  pass_through);
      ("t_4",  pass_through);
      ("m6_2", mandel6_2_to_tensor);
      ("m6_4", mandel6_4_to_tensor);
      ("m9_2", mandel9_2_to_tensor);
      ("m9_4", mandel9_4_to_tensor) ] in
  dict_get String.eqb KStr functions type_.

(** ** The three entry points *)

Definition to_mandel6 (inp : ndarray S) : result (ndarray S) :=
  f <- get_to_mandel6_func inp ;;
  f inp.

(** [verbose] only prints. *)
Definition to_mandel9 (inp : ndarray S) : result (ndarray S) :=
  f <- get_to_mandel9_func inp ;;
  f inp.

Definition to_tensor (inp : ndarray S) : result (ndarray S) :=
  f <- get_to_tensor_func inp ;;
  f inp.

(* ================================================================== *)
(** * class VoigtConverter(Converter) *)

Definition shear : position := [Range 3 6].
Definition quadrant1 : position := [Range 0 3; Range 0 3].
Definition quadrant2 : position := [Range 0 3; Range 3 6].
Definition quadrant3 : position := [Range 3 6; Range 0 3].
Definition quadrant4 : position := [Range 3 6; Range 3 6].

Definition factors_mandel_to_voigt : list (string * list (position * S)) :=
  [ ("stress",
       [ (shear,     np_div np_one (np_sqrt np_two)) ]);
    ("strain",
       [ (shear,     np_sqrt np_two) ]);
    ("stiffness",
       [ (quadrant2, np_div np_one (np_sqrt np_two));
         (quadrant3, np_div np_one (np_sqrt np_two));
         (quadrant4, np_div np_one np_two) ]);
    ("compliance",
       [ (quadrant2, np_sqrt np_two);
         (quadrant3, np_sqrt np_two);
         (quadrant4, np_two) ]) ].

(** The loop [for position, factor in ...: voigt[position] = inp[position] * factor] *)
Fixpoint mandel6_to_voigt_loop (inp : ndarray S) (fs : list (position * S))
    (voigt : ndarray S) : result (ndarray S) :=
  match fs with
  | [] => Ok voigt
  | (position, factor) :: fs' =>
      seg <- getslice inp position ;;
      voigt <- setslice voigt position (scalar_mul seg factor) ;;
      mandel6_to_voigt_loop inp fs' voigt
  end.

Definition mandel6_to_voigt (inp : ndarray S) (voigt_type : string)
    : result (ndarray S) :=
  let voigt := copy inp in
  fs <- dict_get String.eqb KStr factors_mandel_to_voigt voigt_type ;;
  mandel6_to_voigt_loop inp fs voigt.

(** The loop [for position, factor in ...: mandel[position] = inp[position] * 1./factor];
    Python reads the right-hand side as [(inp[position] * 1.) / factor]. *)
Fixpoint voigt_to_mandel6_loop (inp : ndarray S) (fs : list (position * S))
    (mandel : ndarray S) : result (ndarray S) :=
  match fs with
  | [] => Ok mandel
  | (position, factor) :: fs' =>
      seg <- getslice inp position ;;
      mandel <- setslice mandel position
                  (scalar_div (scalar_mul seg np_one) factor) ;;
      voigt_to_mandel6_loop inp fs' mandel
  end.

Definition voigt_to_mandel6 (inp : ndarray S) (voigt_type : string)
    : result (ndarray S) :=
  let mandel := copy inp in
  fs <- dict_get String.eqb KStr factors_mandel_to_voigt voigt_type ;;
  voigt_to_mandel6_loop inp fs mandel.

End Converter.

(* ================================================================== *)
(** * Vocabulary of the specification *)

(** ** The Voigt loops, item by item *)

Section Scan.
Context {S : Type} {D : Dtype S}.

(** What the loop over [(position, factor)] leaves at index [idx]: the last
    listed segment containing [idx] decides, and [op] is applied to the
    item of the loop's input. *)
Fixpoint segment_scan (op : S -> S -> S) (src : list nat -> S)
    (fs : list (position * S)) (acc : list nat -> S) (idx : list nat) : S :=
  match fs with
  | [] => acc idx
  | (p, c) :: fs' =>
      segment_scan op src fs'
        (fun i => if in_position p i then op (src i) c else acc i) idx
  end.

(** [x * 1. / c], as Python groups it. *)
Definition unscale (x c : S) : S := np_div (np_mul x np_one) c.

(** Every listed position has at most as many slices as [inp] has axes. *)
Definition fits (inp : ndarray S) (fs : list (position * S)) : Prop :=
  Forall (fun pc => length (fst pc) <= ndim inp) fs.

(** ** Orthonormality *)

(** The sum over i, j of [basis[a,i,j] * basis[b,i,j]]. *)
Definition gram (basis : ndarray S) (a b : nat) : S :=
  sum_range 3 (fun i => sum_range 3 (fun j =>
    np_mul (item basis [a; i; j]) (item basis [b; i; j]))).

Definition kronecker (a b : nat) : S :=
  if a =? b then np_one else np_zero.

(** ** Round trips *)

(** [to_tensor(to_mandel9(T))] and [to_tensor(to_mandel6(T))] *)
Definition roundtrip9 (T : ndarray S) : result (ndarray S) :=
  M <- to_mandel9 T ;; to_tensor M.

Definition roundtrip6 (T : ndarray S) : result (ndarray S) :=
  M <- to_mandel6 T ;; to_tensor M.

(** ** Sample arrays *)

(** [np.ones(shp)], as in the tests. *)
Definition ones (shp : list nat) : ndarray S :=
  mk_array shp (fun _ => np_one).

Definition ones4 : ndarray S := ones [3; 3; 3; 3].

(** The single component [T[0,1,0,0] = 1]: not minor-symmetric. *)
Definition unit4 : ndarray S :=
  mk_array [3; 3; 3; 3]
    (fun idx => if idx_eqb idx [0; 1; 0; 0] then np_one else np_zero).

(** The entries 0 .. 8 of [np.arange(9).reshape(3, 3)] (class docstring),
    as scalars of the dtype. *)
Definition arange9 : ndarray S :=
  mk_array [3; 3]
    (fun idx => match idx with
                | [i; j] => Nat.iter (3 * i + j) (fun x => np_add x np_one) np_zero
                | _ => np_zero
                end).

End Scan.

(** All index tuples inside a shape, in row-major order. *)
Fixpoint indices (shp : list nat) : list (list nat) :=
  match shp with
  | [] => [[]]
  | n :: shp' => flat_map (fun i => map (cons i) (indices shp')) (seq 0 n)
  end.

(** Absolute error below 1e-10 on binary64 numbers; the literal is the
    binary64 number nearest to 1e-10. *)
Definition within_tol (x y : float) : bool :=
  PrimFloat.ltb (PrimFloat.abs (PrimFloat.sub x y)) 0x1.b7cdfd9d7bdbbp-34%float.

(** Same shape, and every item within the tolerance. *)
Definition all_within_tol (a b : ndarray float) : bool :=
  idx_eqb (shape a) (shape b) &&
  forallb (fun idx => within_tol (item a idx) (item b idx)) (indices (shape a)).

(** A binary64 run returned an array within the tolerance of [expected]. *)
Definition returns_within_tol (r : result (ndarray float))
    (expected : ndarray float) : bool :=
  match r with
  | Ok out => all_within_tol out expected
  | Raise _ => false
  end.

(** ** Shapes and quantities *)

(** The six recognized shapes. *)
Definition recognized_shapes : list (list nat) :=
  [ [3; 3]; [3; 3; 3; 3]; [6]; [6; 6]; [9]; [9; 9] ].

(** The four physical quantities. *)
Definition voigt_types : list string :=
  [ "stress"; "strain"; "stiffness"; "compliance" ]%string.

(** The shape of a Mandel6 array of the order that goes with a quantity. *)
Definition quantity_shape (quantity : string) : list nat :=
  if (String.eqb quantity "stress" || String.eqb quantity "strain")%bool
  then [6] else [6; 6].

(** The shape of the full tensors of that order. *)
Definition quantity_tensor_shape (quantity : string) : list nat :=
  if (String.eqb quantity "stress" || String.eqb quantity "strain")%bool
  then [3; 3] else [3; 3; 3; 3].

(** The number of axes the segments of a quantity index. *)
Definition quantity_ndim (quantity : string) : nat :=
  length (quantity_shape quantity).

(** The shear index range [3, 6). *)
Definition in_shear (i : nat) : bool := (3 <=? i) && (i <? 6).

(** ** Exact arithmetic: bases, scaling table, symmetry *)

Section SpecExact.
Local Open Scope R_scope.

(** [e_j (x) e_k], the unit vectors numbered 1, 2, 3 as in the
    specification and the array indices from 0. *)
Definition e_dyad (j k : nat) : nat -> nat -> R :=
  fun p q => if ((p + 1 =? j) && (q + 1 =? k))%nat then 1 else 0.

Definition sym_dyad (j k : nat) : nat -> nat -> R :=
  fun p q => (e_dyad j k p q + e_dyad k j p q) / sqrt 2.

Definition skw_dyad (j k : nat) : nat -> nat -> R :=
  fun p q => (e_dyad j k p q - e_dyad k j p q) / sqrt 2.

Definition off_diagonal_pairs : list (nat * nat) :=
  [ (2, 3); (1, 3); (1, 2) ]%nat.

(** The symmetric basis as the specification words it. *)
Definition spec_symmetric_basis : list (nat -> nat -> R) :=
  [ e_dyad 1 1; e_dyad 2 2; e_dyad 3 3 ]
  ++ map (fun jk => sym_dyad (fst jk) (snd jk)) off_diagonal_pairs.

(** The extended basis as the specification words it: the skew
    combinations [e_j (x) e_k - e_k (x) e_j] over the same pairs. *)
Definition spec_extended_basis : list (nat -> nat -> R) :=
  spec_symmetric_basis
  ++ map (fun jk => skw_dyad (fst jk) (snd jk)) off_diagonal_pairs.

(** The index pairs of the skew dyads with the signs of the class
    docstring: B_7 = (e_3 (x) e_2 - e_2 (x) e_3)/sqrt 2,
    B_8 = (e_1 (x) e_3 - e_3 (x) e_1)/sqrt 2,
    B_9 = (e_2 (x) e_1 - e_1 (x) e_2)/sqrt 2. *)
Definition skew_pairs : list (nat * nat) :=
  [ (3, 2); (1, 3); (2, 1) ]%nat.

Definition signed_extended_basis : list (nat -> nat -> R) :=
  spec_symmetric_basis
  ++ map (fun jk => skw_dyad (fst jk) (snd jk)) skew_pairs.

Definition dyad_at (basis : list (nat -> nat -> R)) (a : nat)
    : nat -> nat -> R :=
  nth a basis (fun _ _ => 0).

(** The scaling table of the specification (Mandel to Voigt): the factor of
    the segment an index lies in, [None] outside every listed segment. *)
Definition vector_segments (c : R) (idx : list nat) : option R :=
  match idx with
  | [i] => if in_shear i then Some c else None
  | _ => None
  end.

Definition matrix_segments (c23 c4 : R) (idx : list nat) : option R :=
  match idx with
  | [i; j] =>
      if ((i <? 3) && in_shear j)%nat then Some c23          (* quadrant 2 *)
      else if (in_shear i && (j <? 3))%nat then Some c23     (* quadrant 3 *)
      else if (in_shear i && in_shear j)%nat then Some c4    (* quadrant 4 *)
      else None
  | _ => None
  end.

Definition spec_factor (quantity : string) (idx : list nat) : option R :=
  if String.eqb quantity "stress" then vector_segments (1 / sqrt 2) idx
  else if String.eqb quantity "strain" then vector_segments (sqrt 2) idx
  else if String.eqb quantity "stiffness"
       then matrix_segments (1 / sqrt 2) (1 / 2) idx
  else if String.eqb quantity "compliance"
       then matrix_segments (sqrt 2) 2 idx
  else None.

(** Projection of a 3x3 block on a basis, and expansion in it. *)
Definition contract (B : ndarray R) (X : nat -> nat -> R) (a : nat) : R :=
  sum_range 3 (fun i => sum_range 3 (fun j => item B [a; i; j] * X i j)).

Definition expand (K : nat) (B : ndarray R) (v : nat -> R) (j k : nat) : R :=
  sum_range K (fun a => item B [a; j; k] * v a).

(** The items computed by [tensor4_to_mandel] and [mandel_4_to_tensor]. *)
Definition project4 (B T : ndarray R) (a b : nat) : R :=
  sum_range 3 (fun i => sum_range 3 (fun j =>
  sum_range 3 (fun k => sum_range 3 (fun l =>
    item B [a; i; j] * item T [i; j; k; l] * item B [b; k; l])))).

Definition rebuild4 (K : nat) (B : ndarray R) (M : nat -> nat -> R)
    (j k m n : nat) : R :=
  sum_range K (fun a => sum_range K (fun b =>
    item B [a; j; k] * M a b * item B [b; m; n])).

(** Minor symmetry of a fourth-order tensor: invariance under a swap
    within the first, or within the second, index pair. *)
Definition minor_symmetric (T : ndarray R) : Prop :=
  forall i j k l, (i < 3)%nat -> (j < 3)%nat -> (k < 3)%nat -> (l < 3)%nat ->
    item T [i; j; k; l] = item T [j; i; k; l] /\
    item T [i; j; k; l] = item T [i; j; l; k].

(** The round trip through Mandel9 loses information on [T]. *)
Definition loses_information9 (T : ndarray R) : Prop :=
  exists T', roundtrip9 T = Ok T' /\ ~ array_eq T' T.

End SpecExact.

(** The test of the repository on Voigt notation: the Mandel6 forms of the
    all-ones tensors, to Voigt and back, for the four quantities. *)
Definition ones_to_voigt_and_back (quantity : string)
    : result (ndarray float * ndarray float) :=
  mandel <- to_mandel6 (ones (quantity_tensor_shape quantity)) ;;
  voigt <- mandel6_to_voigt mandel quantity ;;
  back <- voigt_to_mandel6 voigt quantity ;;
  Ok (back, mandel).


(* ================================================================== *)
(** * Further vocabulary: orders, symmetry, contractions *)

(** The tensor order a recognized shape stands for: (3,3), (6,) and (9,)
    are second-order, the others fourth-order. *)
Definition order_of_shape (shp : list nat) : nat :=
  if (idx_eqb shp [3; 3] || idx_eqb shp [6] || idx_eqb shp [9])%bool
  then 2 else 4.

(** The shape of a reduced array with [K] dyads, and of a full tensor. *)
Definition mandel_shape (K order : nat) : list nat :=
  if order =? 2 then [K] else [K; K].

Definition tensor_shape (order : nat) : list nat :=
  if order =? 2 then [3; 3] else [3; 3; 3; 3].

(** The index pair of the off-diagonal entries of the a-th symmetric
    dyad, as set in [get_mandel_base_sym]; (a, a) for a < 3. *)
Definition voigt_pair (a : nat) : nat * nat :=
  match a with
  | 0 => (0, 0)
  | 1 => (1, 1)
  | 2 => (2, 2)
  | 3 => (1, 2)
  | 4 => (0, 2)
  | _ => (0, 1)
  end.

(** The quantity whose factors are the reciprocals of those of [q]. *)
Definition dual_quantity (q : string) : string :=
  if String.eqb q "stress" then "strain"
  else if String.eqb q "strain" then "stress"
  else if String.eqb q "stiffness" then "compliance"
  else "stiffness".

(** [np.full(shp, c)] *)
Definition full {S : Type} (shp : list nat) (c : S) : ndarray S :=
  mk_array shp (fun _ => c).

Section MoreExact.
Local Open Scope R_scope.

(** Symmetry of a second-order tensor. *)
Definition symmetric (T : ndarray R) : Prop :=
  forall i j, (i < 3)%nat -> (j < 3)%nat -> item T [i; j] = item T [j; i].

(** The scalar product of two 3x3 arrays, sum of [A[i,j] * B[i,j]]. *)
Definition frobenius (A B : ndarray R) : R :=
  sum_range 3 (fun i => sum_range 3 (fun j => item A [i; j] * item B [i; j])).

(** The scalar product of two reduced vectors of [K] components. *)
Definition dot (K : nat) (u v : ndarray R) : R :=
  sum_range K (fun a => item u [a] * item v [a]).

(** The matrix-vector product of reduced arrays, component [a]. *)
Definition matvec (K : nat) (M v : ndarray R) (a : nat) : R :=
  sum_range K (fun b => item M [a; b] * item v [b]).

(** The double contraction [T : E], component [i, j]. *)
Definition double_contraction (T E : ndarray R) (i j : nat) : R :=
  sum_range 3 (fun k => sum_range 3 (fun l =>
    item T [i; j; k; l] * item E [k; l])).

(** [T : E] as a 3x3 array. *)
Definition contracted (T E : ndarray R) : ndarray R :=
  mk_array [3; 3]%nat
    (fun idx => match idx with
                | [i; j] => double_contraction T E i j
                | _ => 0
                end).

(** The sum of a second-order component and its transpose, at the index
    pair of the a-th dyad. *)
Definition pair_sum (T : ndarray R) (a : nat) : R :=
  item T [fst (voigt_pair a); snd (voigt_pair a)] +
  item T [snd (voigt_pair a); fst (voigt_pair a)].

(** The sum of a fourth-order component over the two minor index swaps. *)
Definition minor_sum (T : ndarray R) (i j k l : nat) : R :=
  item T [i; j; k; l] + item T [j; i; k; l] +
  item T [i; j; l; k] + item T [j; i; l; k].

(** The same sum at the index pairs of the dyads a and b. *)
Definition minor_sum_at (T : ndarray R) (a b : nat) : R :=
  minor_sum T (fst (voigt_pair a)) (snd (voigt_pair a))
              (fst (voigt_pair b)) (snd (voigt_pair b)).

(** 1 for a normal component, 2 for a shear component. *)
Definition shear_weight (a : nat) : R := if (a <? 3)%nat then 1 else 2.

(** The nonzero entry of the a-th symmetric dyad, halved when it fills
    the single diagonal position. *)
Definition dyad_weight (a : nat) : R :=
  if (a <? 3)%nat then 1 / 2 else sqrt 2 / 2.

End MoreExact.

(* ================================================================== *)
(** * Vocabulary for binary64 runs *)

(** Minor symmetry item by item, at any dtype (in binary64: bit for bit). *)
Definition minor_symmetric_items {S : Type} (T : ndarray S) : Prop :=
  forall i j k l, i < 3 -> j < 3 -> k < 3 -> l < 3 ->
    item T [i; j; k; l] = item T [j; i; k; l] /\
    item T [i; j; k; l] = item T [i; j; l; k].





(** ** Binary64 inputs *)


(** The single component [T[0,1,0,0] = 19]: not minor-symmetric. *)
Definition skew19 : ndarray float :=
  mk_array [3; 3; 3; 3]
    (fun idx => if idx_eqb idx [0; 1; 0; 0] then 19%float else 0%float).




(** [np.array_equal] on binary64 arrays: same shape, and [==] at every
    index (a NaN equals nothing, and [0.0 == -0.0]). *)
Definition np_array_equal (a b : ndarray float) : bool :=
  idx_eqb (shape a) (shape b) &&
  forallb (fun idx => PrimFloat.eqb (item a idx) (item b idx))
          (indices (shape a)).

(** Minor symmetry of a binary64 3x3x3x3 array, with [==]. *)
Definition minor_symmetric_float64 (T : ndarray float) : bool :=
  forallb (fun idx =>
             match idx with
             | [i; j; k; l] =>
                 PrimFloat.eqb (item T [i; j; k; l]) (item T [j; i; k; l]) &&
                 PrimFloat.eqb (item T [i; j; k; l]) (item T [i; j; l; k])
             | _ => true
             end) (indices [3; 3; 3; 3]).

(* ================================================================== *)
(** * Lemmas that hold at every dtype *)

Lemma idx_eqb_eq (p q : list nat) : idx_eqb p q = true <-> p = q.
Proof.
  revert q. induction p as [|i p IH]; intros [|j q]; simpl; split;
    try congruence; try reflexivity.
  - intros H. apply andb_true_iff in H as [Hij Hpq].
    apply Nat.eqb_eq in Hij. apply IH in Hpq. congruence.
  - intros H. injection H as -> ->.
    rewrite Nat.eqb_refl. simpl. now apply IH.
Qed.

Lemma idx_eqb_refl (p : list nat) : idx_eqb p p = true.
Proof. now apply idx_eqb_eq. Qed.

Lemma dict_get_absent {K V} (eqb : K -> K -> bool) inj (d : list (K * V)) k :
  (forall k', eqb k' k = true -> k' = k) ->
  ~ In k (map fst d) ->
  dict_get eqb inj d k = Raise (KeyError (inj k)).
Proof.
  intros Heqb. induction d as [|[k' v] d IH]; simpl; intros Hk.
  - reflexivity.
  - destruct (eqb k' k) eqn:E.
    + exfalso. apply Hk. left. now apply Heqb.
    + apply IH. intros Hin. apply Hk. now right.
Qed.

Lemma dict_get_inv {K V} (eqb : K -> K -> bool) inj (d : list (K * V)) k v :
  (forall k', eqb k' k = true -> k' = k) ->
  dict_get eqb inj d k = Ok v -> In (k, v) d.
Proof.
  intros Heqb. induction d as [|[k' v'] d IH]; simpl.
  - discriminate.
  - destruct (eqb k' k) eqn:E.
    + intros [= ->]. left. f_equal. now apply Heqb.
    + intros H. right. now apply IH.
Qed.

Lemma offset_roundtrip (pos : position) (idx : list nat) :
  in_position pos idx = true -> offset_add pos (offset_sub pos idx) = idx.
Proof.
  revert idx. induction pos as [|s pos IH]; intros [|i idx]; simpl;
    try reflexivity; try discriminate.
  intros H. apply andb_true_iff in H as [Hs Hp].
  rewrite (IH _ Hp). f_equal.
  destruct s as [lo hi|]; simpl in *.
  - apply andb_true_iff in Hs as [Hlo _]. apply Nat.leb_le in Hlo. lia.
  - lia.
Qed.

Section Generic.
Context {S : Type} {D : Dtype S}.

Lemma sum_range_ext n (g h : nat -> S) :
  (forall i, i < n -> g i = h i) -> sum_range n g = sum_range n h.
Proof.
  induction n as [|n IH]; simpl; intros E.
  - reflexivity.
  - rewrite IH by (intros i Hi; apply E; lia). now rewrite (E n) by lia.
Qed.

Lemma array_eq_refl (a : ndarray S) : array_eq a a.
Proof. split; reflexivity. Qed.

Lemma get_mandel_base_skw_ok : get_mandel_base_skw = Ok (BASE9 (S:=S)).
Proof. reflexivity. Qed.

Lemma shape_BASE6 : shape (BASE6 (S:=S)) = [6; 3; 3].
Proof. reflexivity. Qed.

Lemma shape_BASE9 : shape (BASE9 (S:=S)) = [9; 3; 3].
Proof. reflexivity. Qed.

Lemma BASE9_first6 a i j :
  a < 6 -> item (BASE9 (S:=S)) [a; i; j] = item BASE6 [a; i; j].
Proof.
  intros Ha.
  do 6 (destruct a as [|a]; [cbn; now rewrite !Nat.sub_0_r|]). lia.
Qed.

Lemma segment_scan_ext (op : S -> S -> S) src fs : forall acc acc' idx,
  (forall i, acc i = acc' i) ->
  segment_scan op src fs acc idx = segment_scan op src fs acc' idx.
Proof.
  induction fs as [|[p c] fs IH]; simpl; intros acc acc' idx E.
  - apply E.
  - apply IH. intros i. now rewrite E.
Qed.

Lemma getslice_ok (a : ndarray S) pos :
  length pos <= ndim a ->
  getslice a pos =
    Ok (mk_array (slice_shape pos (shape a))
                 (fun idx => item a (offset_add pos idx))).
Proof.
  intros H. unfold getslice. apply Nat.leb_le in H. now rewrite H.
Qed.

Lemma setslice_ok (a v : ndarray S) pos :
  length pos <= ndim a ->
  shape v = slice_shape pos (shape a) ->
  setslice a pos v =
    Ok (mk_array (shape a)
          (fun idx => if in_position pos idx
                      then item v (offset_sub pos idx) else item a idx)).
Proof.
  intros H E. unfold setslice. apply Nat.leb_le in H.
  now rewrite H, E, idx_eqb_refl.
Qed.

(** One step of either loop: the slice is read from [inp], transformed
    by [op] and written to the output at the same position. *)
Ltac loop_by_induction inp fs op :=
  induction fs as [|[p c] fs IH]; simpl; intros out Hs Hfit;
  [ exists out; auto
  | inversion Hfit as [|? ? Hp Hfs]; subst; simpl in Hp;
    rewrite getslice_ok by exact Hp; simpl;
    rewrite setslice_ok
      by (unfold ndim; rewrite ?Hs; solve [exact Hp | reflexivity]);
    simpl;
    destruct (IH (mk_array (shape out)
                (fun idx => if in_position p idx
                   then op (item inp (offset_add p (offset_sub p idx))) c
                   else item out idx)) Hs Hfs) as (v & Hv & Hsh & Hit);
    exists v; repeat split; try assumption;
    intros idx; rewrite Hit; apply segment_scan_ext; intros i; simpl;
    destruct (in_position p i) eqn:E;
    [now rewrite offset_roundtrip | reflexivity] ].

Lemma mandel6_to_voigt_loop_ok (inp : ndarray S) fs : forall voigt,
  shape voigt = shape inp -> fits inp fs ->
  exists v, mandel6_to_voigt_loop inp fs voigt = Ok v /\
            shape v = shape inp /\
            forall idx,
              item v idx = segment_scan np_mul (item inp) fs (item voigt) idx.
Proof. loop_by_induction inp fs (@np_mul S D). Qed.

Lemma voigt_to_mandel6_loop_ok (inp : ndarray S) fs : forall mandel,
  shape mandel = shape inp -> fits inp fs ->
  exists m, voigt_to_mandel6_loop inp fs mandel = Ok m /\
            shape m = shape inp /\
            forall idx,
              item m idx = segment_scan unscale (item inp) fs (item mandel) idx.
Proof. loop_by_induction inp fs (@unscale S D). Qed.

End Generic.

(* ================================================================== *)
(** * Dispatch and shapes, at every dtype *)

Section Dispatch.
Context {S : Type} {D : Dtype S}.

Lemma in_bounds_nil (idx : list nat) : in_bounds [] idx = true -> idx = [].
Proof. destruct idx; [reflexivity | discriminate]. Qed.

Lemma in_bounds_cons n shp (idx : list nat) :
  in_bounds (n :: shp) idx = true ->
  exists i idx', idx = i :: idx' /\ i < n /\ in_bounds shp idx' = true.
Proof.
  destruct idx as [|i idx']; simpl; [discriminate|].
  intros H. apply andb_true_iff in H as [Hi Hr]. apply Nat.ltb_lt in Hi.
  eauto.
Qed.

(** The method an entry point selects for an input of a given shape. *)
Ltac dispatch H :=
  unfold to_mandel6, to_mandel9, to_tensor,
    get_to_mandel6_func, get_to_mandel9_func, get_to_tensor_func,
    get_type_by_shape;
  now rewrite H.

Lemma to_mandel6_t2 (inp : ndarray S) :
  shape inp = [3; 3] -> to_mandel6 inp = tensor2_to_mandel6 inp.
Proof. intros H. dispatch H. Qed.

Lemma to_mandel6_t4 (inp : ndarray S) :
  shape inp = [3; 3; 3; 3] -> to_mandel6 inp = tensor4_to_mandel6 inp.
Proof. intros H. dispatch H. Qed.

Lemma to_mandel6_m9_2 (inp : ndarray S) :
  shape inp = [9] -> to_mandel6 inp = mandel9_2_to_mandel6 inp.
Proof. intros H. dispatch H. Qed.

Lemma to_mandel6_m9_4 (inp : ndarray S) :
  shape inp = [9; 9] -> to_mandel6 inp = mandel9_4_to_mandel6 inp.
Proof. intros H. dispatch H. Qed.

Lemma to_mandel9_t2 (inp : ndarray S) :
  shape inp = [3; 3] -> to_mandel9 inp = tensor2_to_mandel9 inp.
Proof. intros H. dispatch H. Qed.

Lemma to_mandel9_t4 (inp : ndarray S) :
  shape inp = [3; 3; 3; 3] -> to_mandel9 inp = tensor4_to_mandel9 inp.
Proof. intros H. dispatch H. Qed.

Lemma to_tensor_m6_4 (inp : ndarray S) :
  shape inp = [6; 6] -> to_tensor inp = mandel6_4_to_tensor inp.
Proof. intros H. dispatch H. Qed.

Lemma to_tensor_m9_2 (inp : ndarray S) :
  shape inp = [9] -> to_tensor inp = mandel9_2_to_tensor inp.
Proof. intros H. dispatch H. Qed.

Lemma to_tensor_m9_4 (inp : ndarray S) :
  shape inp = [9; 9] -> to_tensor inp = mandel9_4_to_tensor inp.
Proof. intros H. dispatch H. Qed.

(** The contractions succeed on operands of fitting shapes. *)

Lemma tensor2_to_mandel_ok (inp base : ndarray S) K :
  shape base = [K; 3; 3] -> shape inp = [3; 3] ->
  tensor2_to_mandel inp base =
    Ok (mk_array [K] (fun idx =>
      match idx with
      | [a] => sum_range 3 (fun i => sum_range 3 (fun j =>
                 np_mul (item base [a; i; j]) (item inp [i; j])))
      | _ => np_zero
      end)).
Proof.
  intros Hb Hi. unfold tensor2_to_mandel, einsum_aij_ij. now rewrite Hb, Hi.
Qed.

Lemma tensor4_to_mandel_ok (inp base : ndarray S) K :
  shape base = [K; 3; 3] -> shape inp = [3; 3; 3; 3] ->
  tensor4_to_mandel inp base =
    Ok (mk_array [K; K] (fun idx =>
      match idx with
      | [a; b] =>
          sum_range 3 (fun i => sum_range 3 (fun j =>
          sum_range 3 (fun k => sum_range 3 (fun l =>
            np_mul (np_mul (item base [a; i; j]) (item inp [i; j; k; l]))
                   (item base [b; k; l])))))
      | _ => np_zero
      end)).
Proof.
  intros Hb Hi. unfold tensor4_to_mandel, einsum_aij_ijkl_bkl.
  now rewrite Hb, Hi.
Qed.

Lemma mandel_2_to_tensor_ok (inp base : ndarray S) K :
  shape base = [K; 3; 3] -> shape inp = [K] ->
  mandel_2_to_tensor inp base =
    Ok (mk_array [3; 3] (fun idx =>
      match idx with
      | [j; k] => sum_range K (fun a =>
                    np_mul (item base [a; j; k]) (item inp [a]))
      | _ => np_zero
      end)).
Proof.
  intros Hb Hi. unfold mandel_2_to_tensor, einsum_ajk_a.
  now rewrite Hb, Hi, Nat.eqb_refl.
Qed.

Lemma mandel_4_to_tensor_ok (inp base : ndarray S) K :
  shape base = [K; 3; 3] -> shape inp = [K; K] ->
  mandel_4_to_tensor inp base =
    Ok (mk_array [3; 3; 3; 3] (fun idx =>
      match idx with
      | [j; k; m; n] =>
          sum_range K (fun a => sum_range K (fun b =>
            np_mul (np_mul (item base [a; j; k]) (item inp [a; b]))
                   (item base [b; m; n])))
      | _ => np_zero
      end)).
Proof.
  intros Hb Hi. unfold mandel_4_to_tensor, einsum_ajk_ab_bmn.
  now rewrite Hb, Hi, Nat.eqb_refl.
Qed.

End Dispatch.

(** Split an index known to lie inside a shape into its coordinates. *)
Ltac split_index H :=
  repeat match type of H with
  | in_bounds (_ :: _) _ = true =>
      let i := fresh "i" in let Hi := fresh "Hi" in
      apply in_bounds_cons in H as (i & ? & -> & Hi & H)
  | in_bounds [] _ = true => apply in_bounds_nil in H as ->
  end.

(* ================================================================== *)
(** * Exact arithmetic *)

Lemma sqrt2_sq : (sqrt 2 * sqrt 2 = 2)%R.
Proof. apply sqrt_sqrt. lra. Qed.

Lemma sqrt2_pos : (0 < sqrt 2)%R.
Proof. apply sqrt_lt_R0. lra. Qed.

Lemma half_sqrt2_sq : (2 * ((sqrt 2 / 2) * (sqrt 2 / 2)) = 1)%R.
Proof. pose proof sqrt2_sq. field_simplify. nra. Qed.

(** Evaluate the items of the two bases at concrete indices, keeping the
    real-number operations folded. *)
Ltac eval_items :=
  cbv -[Rplus Rmult Ropp Rinv Rdiv Rminus sqrt IZR INR item];
  cbn [item];
  cbv -[Rplus Rmult Ropp Rinv Rdiv Rminus sqrt IZR INR item].

(** Close a polynomial identity in [factor], using [2 * factor^2 = 1]. *)
Ltac by_factor :=
  try ring;
  generalize half_sqrt2_sq; generalize (sqrt 2 / 2)%R; intros f Hf; nsatz.

(** Close an equation between multiples of [sqrt 2] and of [1 / sqrt 2]. *)
Ltac by_sqrt2 :=
  pose proof sqrt2_pos; pose proof sqrt2_sq;
  try (field_simplify_eq; [ | lra ]); nra.

Ltac below3 j := destruct j as [|[|[|j]]]; [ | | | lia].
Ltac below6 a := destruct a as [|[|[|[|[|[|a]]]]]]; [ | | | | | | lia].
Ltac below9 a :=
  destruct a as [|[|[|[|[|[|[|[|[|a]]]]]]]]]; [ | | | | | | | | | lia].

Section Exact.
Local Open Scope R_scope.

(** ** Projection on a basis, and expansion in it, for a 3x3 block *)

Lemma expand_contract9 (X : nat -> nat -> R) j k :
  (j < 3)%nat -> (k < 3)%nat ->
  expand 9 BASE9 (contract BASE9 X) j k = X j k.
Proof.
  intros Hj Hk. unfold expand, contract.
  below3 j; below3 k; eval_items; by_factor.
Qed.

Lemma expand_contract6 (X : nat -> nat -> R) j k :
  (j < 3)%nat -> (k < 3)%nat ->
  2 * expand 6 BASE6 (contract BASE6 X) j k = X j k + X k j.
Proof.
  intros Hj Hk. unfold expand, contract.
  below3 j; below3 k; eval_items; by_factor.
Qed.

Lemma sum_range_scal n (c : R) (g : nat -> R) :
  sum_range n (fun i => c * g i) = c * sum_range n g.
Proof.
  induction n as [|n IH]; simpl.
  - ring.
  - rewrite IH. ring.
Qed.

(** The two fourth-order contractions, one index pair at a time. *)

Lemma project4_pairs (B T : ndarray R) a b :
  project4 B T a b =
  contract B (fun k l => contract B (fun i j => item T [i; j; k; l]) a) b.
Proof. unfold project4, contract. simpl. ring. Qed.

Lemma rebuild4_pairs K (B : ndarray R) M j k m n :
  rebuild4 K B M j k m n =
  expand K B (fun a => expand K B (fun b => M a b) m n) j k.
Proof.
  unfold rebuild4, expand. apply sum_range_ext. intros a _.
  rewrite <- sum_range_scal. apply sum_range_ext. intros b _.
  simpl. ring.
Qed.

Lemma rebuild4_project4_9 (T : ndarray R) j k m n :
  (j < 3)%nat -> (k < 3)%nat -> (m < 3)%nat -> (n < 3)%nat ->
  rebuild4 9 BASE9 (project4 BASE9 T) j k m n = item T [j; k; m; n].
Proof.
  intros Hj Hk Hm Hn. rewrite rebuild4_pairs.
  transitivity
    (expand 9 BASE9 (contract BASE9 (fun i j' => item T [i; j'; m; n])) j k).
  - apply sum_range_ext. intros a _. f_equal.
    transitivity
      (expand 9 BASE9
         (contract BASE9
            (fun k' l => contract BASE9 (fun i j' => item T [i; j'; k'; l]) a))
         m n).
    + apply sum_range_ext. intros b _. now rewrite project4_pairs.
    + now rewrite expand_contract9.
  - now rewrite expand_contract9.
Qed.


End Exact.

(** ** Round trips through the entry points *)

Section RoundTrips.

(** [to_tensor(to_mandel9(T))] and [to_tensor(to_mandel6(T))] *)

(** Minor symmetry of a fourth-order tensor: invariance under a swap of
    the first, or of the second, index pair. *)


Lemma roundtrip9_order4 (T : ndarray R) :
  shape T = [3; 3; 3; 3] ->
  exists T', roundtrip9 T = Ok T' /\ array_eq T' T.
Proof.
  intros H. unfold roundtrip9.
  rewrite to_mandel9_t4 by exact H. unfold tensor4_to_mandel9.
  rewrite tensor4_to_mandel_ok with (K := 9) by (exact shape_BASE9 || exact H). simpl bind.
  rewrite to_tensor_m9_4 by reflexivity. unfold mandel9_4_to_tensor.
  rewrite mandel_4_to_tensor_ok with (K := 9) by reflexivity.
  eexists. split; [reflexivity|]. split; [now rewrite H|].
  intros idx Hb. cbn [shape] in Hb. split_index Hb.
  apply (@rebuild4_project4_9 T); assumption.
Qed.


End RoundTrips.

(* ================================================================== *)
(** * The properties of the specification *)

(** ** The bases *)

Section Bases.
Local Open Scope R_scope.

(** C3, as stated, fails: the item [1, 2] of the seventh dyad is
    [- sqrt 2 / 2] in the code and [+ 1 / sqrt 2] in
    [(e_2 (x) e_3 - e_3 (x) e_2) / sqrt 2]. *)
Lemma extended_basis_sign_counterexample :
  item (BASE9 (S:=R)) [6; 1; 2]%nat <> dyad_at spec_extended_basis 6 1 2.
Proof.
  eval_items. pose proof sqrt2_pos as Hp.
  assert (0 < / sqrt 2) by now apply Rinv_0_lt_compat.
  unfold Rdiv. intros E. nra.
Qed.

Lemma BASE6_dyads a i j :
  (a < 6)%nat -> (i < 3)%nat -> (j < 3)%nat ->
  item (BASE6 (S:=R)) [a; i; j] = dyad_at spec_symmetric_basis a i j.
Proof.
  intros Ha Hi Hj.
  below6 a; below3 i; below3 j; eval_items; by_sqrt2.
Qed.

Lemma BASE9_dyads a i j :
  (a < 9)%nat -> (i < 3)%nat -> (j < 3)%nat ->
  item (BASE9 (S:=R)) [a; i; j] = dyad_at signed_extended_basis a i j.
Proof.
  intros Ha Hi Hj.
  below9 a; below3 i; below3 j; eval_items; by_sqrt2.
Qed.

(** C3, amended -- dyads 1-3 of the symmetric basis are [e_i (x) e_i],
    dyads 4-6 are [(e_j (x) e_k + e_k (x) e_j) / sqrt 2] for the pairs
    (2,3), (1,3), (1,2) in this order; the first 6 dyads of the extended
    basis are those of the symmetric basis, and its dyads 7-9 are
    [(e_j (x) e_k - e_k (x) e_j) / sqrt 2] for (j,k) = (3,2), (1,3), (2,1)
    in this order: the same three pairs, the first and the third with the
    sign opposite to the one stated. *)
Theorem basis_dyads (a i j : nat) :
  (i < 3)%nat -> (j < 3)%nat ->
  ((a < 6)%nat ->
     item (BASE6 (S:=R)) [a; i; j] = dyad_at spec_symmetric_basis a i j /\
     item (BASE9 (S:=R)) [a; i; j] = item (BASE6 (S:=R)) [a; i; j]) /\
  ((a < 9)%nat ->
     item (BASE9 (S:=R)) [a; i; j] = dyad_at signed_extended_basis a i j) /\
  ((6 <= a < 9)%nat ->
     dyad_at signed_extended_basis a i j =
       (if (a =? 7)%nat then 1 else -1) * dyad_at spec_extended_basis a i j).
Proof.
  intros Hi Hj. repeat split.
  - now apply BASE6_dyads.
  - now apply BASE9_first6.
  - intros Ha. now apply BASE9_dyads.
  - intros [Ha6 Ha9].
    do 6 (destruct a as [|a]; [lia|]).
    do 3 (destruct a as [|a]; [below3 i; below3 j; eval_items; by_sqrt2|]).
    lia.
Qed.

Lemma basis_dyads_witness :
  item (BASE6 (S:=R)) [3; 1; 2]%nat = dyad_at spec_symmetric_basis 3 1 2 /\
  item (BASE9 (S:=R)) [8; 0; 1]%nat = dyad_at signed_extended_basis 8 0 1 /\
  dyad_at signed_extended_basis 8 0 1 =
    (if (8 =? 7)%nat then 1 else -1) * dyad_at spec_extended_basis 8 0 1.
Proof.
  assert (H01 : (0 < 3)%nat) by lia.
  assert (H13 : (1 < 3)%nat) by lia.
  assert (H23 : (2 < 3)%nat) by lia.
  split; [|split].
  - apply (proj1 (basis_dyads 3 1 2 H13 H23)). lia.
  - apply (proj1 (proj2 (basis_dyads 8 0 1 H01 H13))). lia.
  - apply (proj2 (proj2 (basis_dyads 8 0 1 H01 H13))). lia.
Defined.

(** C5 -- Orthonormality of both bases: the sum over i, j of
    [basis[a,i,j] * basis[b,i,j]] is 1 when a = b and 0 otherwise, exactly
    in real arithmetic; computed in binary64 it is within 1e-10 of that
    value. *)
Theorem bases_orthonormal (a b : nat) :
  ((a < 6)%nat -> (b < 6)%nat ->
     gram (BASE6 (S:=R)) a b = kronecker a b /\
     within_tol (gram (BASE6 (S:=float)) a b) (kronecker a b) = true) /\
  ((a < 9)%nat -> (b < 9)%nat ->
     gram (BASE9 (S:=R)) a b = kronecker a b /\
     within_tol (gram (BASE9 (S:=float)) a b) (kronecker a b) = true).
Proof.
  split; intros Ha Hb.
  - below6 a; below6 b;
      (split; [unfold gram, kronecker; eval_items; by_factor
              | vm_compute; reflexivity]).
  - below9 a; below9 b;
      (split; [unfold gram, kronecker; eval_items; by_factor
              | vm_compute; reflexivity]).
Qed.

Lemma bases_orthonormal_witness :
  (gram (BASE6 (S:=R)) 3 3 = kronecker 3 3 /\
   within_tol (gram (BASE6 (S:=float)) 3 3) (kronecker 3 3) = true) /\
  (gram (BASE9 (S:=R)) 6 3 = kronecker 6 3 /\
   within_tol (gram (BASE9 (S:=float)) 6 3) (kronecker 6 3) = true).
Proof.
  split.
  - apply (proj1 (bases_orthonormal 3 3)); lia.
  - apply (proj2 (bases_orthonormal 6 3)); lia.
Defined.

End Bases.

(** ** Dispatch on the shape *)

Section EntryPoints.
Context {S : Type} {D : Dtype S}.

Lemma types_keys : map fst types = recognized_shapes.
Proof. reflexivity. Qed.

Lemma get_type_by_shape_unrecognized (inp : ndarray S) :
  ~ In (shape inp) recognized_shapes ->
  get_type_by_shape inp = Raise (KeyError (KShape (shape inp))).
Proof.
  intros H. unfold get_type_by_shape. apply dict_get_absent.
  - intros k' E. now apply idx_eqb_eq.
  - now rewrite types_keys.
Qed.

(** C8 -- Each of [to_mandel6], [to_mandel9], [to_tensor], called on an
    array whose shape is none of (3,3), (3,3,3,3), (6,), (6,6), (9,), (9,9),
    raises the lookup error [KeyError] carrying that shape, and returns
    nothing; called on an array of one of these shapes it raises no error
    and returns an array. *)
Theorem classification_by_shape (inp : ndarray S) :
  (~ In (shape inp) recognized_shapes ->
     to_mandel6 inp = Raise (KeyError (KShape (shape inp))) /\
     to_mandel9 inp = Raise (KeyError (KShape (shape inp))) /\
     to_tensor inp = Raise (KeyError (KShape (shape inp)))) /\
  (In (shape inp) recognized_shapes ->
     (exists out, to_mandel6 inp = Ok out) /\
     (exists out, to_mandel9 inp = Ok out) /\
     (exists out, to_tensor inp = Ok out)).
Proof.
  split; intros H.
  - unfold to_mandel6, to_mandel9, to_tensor,
      get_to_mandel6_func, get_to_mandel9_func, get_to_tensor_func.
    rewrite (get_type_by_shape_unrecognized _ H). auto.
  - destruct inp as [shp it]. simpl in H.
    repeat (destruct H as [H|H]; [subst shp|]); [ .. | contradiction];
      repeat split; eexists; reflexivity.
Qed.

(** C10 -- Converting a tensor directly to Mandel6 agrees with converting
    it to Mandel9 and truncating: for a 3x3 array the result of [to_mandel6]
    has the first 6 items of the result of [to_mandel9], for a 3x3x3x3 array
    its top-left 6x6 block; and [to_mandel6] applied to the Mandel9 result
    returns this array. *)
Theorem mandel6_is_truncated_mandel9 (T : ndarray S) :
  (shape T = [3; 3] ->
     exists m6 m9 m6',
       to_mandel6 T = Ok m6 /\ to_mandel9 T = Ok m9 /\
       shape m6 = [6] /\ shape m9 = [9] /\
       (forall a, a < 6 -> item m6 [a] = item m9 [a]) /\
       to_mandel6 m9 = Ok m6' /\ array_eq m6 m6') /\
  (shape T = [3; 3; 3; 3] ->
     exists m6 m9 m6',
       to_mandel6 T = Ok m6 /\ to_mandel9 T = Ok m9 /\
       shape m6 = [6; 6] /\ shape m9 = [9; 9] /\
       (forall a b, a < 6 -> b < 6 -> item m6 [a; b] = item m9 [a; b]) /\
       to_mandel6 m9 = Ok m6' /\ array_eq m6 m6').
Proof.
  split; intros H.
  - rewrite to_mandel6_t2, to_mandel9_t2 by exact H.
    unfold tensor2_to_mandel6, tensor2_to_mandel9.
    rewrite tensor2_to_mandel_ok with (K := 6) by (exact shape_BASE6 || exact H).
    rewrite tensor2_to_mandel_ok with (K := 9) by (exact shape_BASE9 || exact H).
    assert (E : forall a, a < 6 ->
      sum_range 3 (fun i => sum_range 3 (fun j =>
        np_mul (item BASE6 [a; i; j]) (item T [i; j]))) =
      sum_range 3 (fun i => sum_range 3 (fun j =>
        np_mul (item BASE9 [a; i; j]) (item T [i; j])))).
    { intros a Ha. apply sum_range_ext. intros i _.
      apply sum_range_ext. intros j _. now rewrite BASE9_first6. }
    do 3 eexists. split; [reflexivity|]. split; [reflexivity|].
    split; [reflexivity|]. split; [reflexivity|].
    split; [exact E|].
    rewrite to_mandel6_m9_2 by reflexivity.
    split; [reflexivity|]. split; [reflexivity|].
    intros idx Hb. cbn [shape] in Hb. split_index Hb. now apply E.
  - rewrite to_mandel6_t4, to_mandel9_t4 by exact H.
    unfold tensor4_to_mandel6, tensor4_to_mandel9.
    rewrite tensor4_to_mandel_ok with (K := 6) by (exact shape_BASE6 || exact H).
    rewrite tensor4_to_mandel_ok with (K := 9) by (exact shape_BASE9 || exact H).
    assert (E : forall a b, a < 6 -> b < 6 ->
      sum_range 3 (fun i => sum_range 3 (fun j =>
      sum_range 3 (fun k => sum_range 3 (fun l =>
        np_mul (np_mul (item BASE6 [a; i; j]) (item T [i; j; k; l]))
               (item BASE6 [b; k; l]))))) =
      sum_range 3 (fun i => sum_range 3 (fun j =>
      sum_range 3 (fun k => sum_range 3 (fun l =>
        np_mul (np_mul (item BASE9 [a; i; j]) (item T [i; j; k; l]))
               (item BASE9 [b; k; l])))))).
    { intros a b Ha Hb. apply sum_range_ext. intros i _.
      apply sum_range_ext. intros j _. apply sum_range_ext. intros k _.
      apply sum_range_ext. intros l _. now rewrite !BASE9_first6. }
    do 3 eexists. split; [reflexivity|]. split; [reflexivity|].
    split; [reflexivity|]. split; [reflexivity|].
    split; [exact E|].
    rewrite to_mandel6_m9_4 by reflexivity.
    split; [reflexivity|]. split; [reflexivity|].
    intros idx Hb. cbn [shape] in Hb. split_index Hb. now apply E.
Qed.

End EntryPoints.

Lemma classification_by_shape_witness :
  (to_mandel6 (zeros (D:=float64) [5]) = Raise (KeyError (KShape [5])) /\
   to_mandel9 (zeros (D:=float64) [5]) = Raise (KeyError (KShape [5])) /\
   to_tensor (zeros (D:=float64) [5]) = Raise (KeyError (KShape [5]))) /\
  ((exists out, to_mandel6 (zeros (D:=float64) [9; 9]) = Ok out) /\
   (exists out, to_mandel9 (zeros (D:=float64) [9; 9]) = Ok out) /\
   (exists out, to_tensor (zeros (D:=float64) [9; 9]) = Ok out)).
Proof.
  split.
  - apply (proj1 (classification_by_shape (zeros (D:=float64) [5]))).
    simpl. intuition discriminate.
  - apply (proj2 (classification_by_shape (zeros (D:=float64) [9; 9]))).
    simpl. auto 10.
Defined.

Lemma mandel6_is_truncated_mandel9_witness :
  (exists m6 m9 m6' : ndarray float,
     to_mandel6 (zeros [3; 3]) = Ok m6 /\ to_mandel9 (zeros [3; 3]) = Ok m9 /\
     shape m6 = [6] /\ shape m9 = [9] /\
     (forall a, a < 6 -> item m6 [a] = item m9 [a]) /\
     to_mandel6 m9 = Ok m6' /\ array_eq m6 m6') /\
  (exists m6 m9 m6' : ndarray float,
     to_mandel6 (zeros [3; 3; 3; 3]) = Ok m6 /\
     to_mandel9 (zeros [3; 3; 3; 3]) = Ok m9 /\
     shape m6 = [6; 6] /\ shape m9 = [9; 9] /\
     (forall a b, a < 6 -> b < 6 -> item m6 [a; b] = item m9 [a; b]) /\
     to_mandel6 m9 = Ok m6' /\ array_eq m6 m6').
Proof.
  split.
  - apply (proj1 (mandel6_is_truncated_mandel9 (zeros (D:=float64) [3; 3]))).
    reflexivity.
  - apply (proj2 (mandel6_is_truncated_mandel9
                    (zeros (D:=float64) [3; 3; 3; 3]))).
    reflexivity.
Defined.

(** ** Voigt notation *)

Section Voigt.
Context {S : Type} {D : Dtype S}.

Lemma factors_keys :
  map fst (factors_mandel_to_voigt (S:=S)) = voigt_types.
Proof. reflexivity. Qed.

Lemma string_eqb_true (k' k : string) : String.eqb k' k = true -> k' = k.
Proof. apply String.eqb_eq. Qed.

Lemma mandel6_to_voigt_ok (inp : ndarray S) q fs :
  dict_get String.eqb KStr factors_mandel_to_voigt q = Ok fs ->
  fits inp fs ->
  exists v, mandel6_to_voigt inp q = Ok v /\ shape v = shape inp /\
    forall idx,
      item v idx = segment_scan np_mul (item inp) fs (item inp) idx.
Proof.
  intros Hq Hfit. unfold mandel6_to_voigt. rewrite Hq. simpl bind.
  exact (mandel6_to_voigt_loop_ok inp fs (copy inp) eq_refl Hfit).
Qed.

Lemma voigt_to_mandel6_ok (inp : ndarray S) q fs :
  dict_get String.eqb KStr factors_mandel_to_voigt q = Ok fs ->
  fits inp fs ->
  exists m, voigt_to_mandel6 inp q = Ok m /\ shape m = shape inp /\
    forall idx,
      item m idx = segment_scan unscale (item inp) fs (item inp) idx.
Proof.
  intros Hq Hfit. unfold voigt_to_mandel6. rewrite Hq. simpl bind.
  exact (voigt_to_mandel6_loop_ok inp fs (copy inp) eq_refl Hfit).
Qed.

(** The factors of a quantity fit the arrays of its order and beyond. *)
Lemma quantity_fits (inp : ndarray S) q fs :
  dict_get String.eqb KStr factors_mandel_to_voigt q = Ok fs ->
  quantity_ndim q <= ndim inp -> fits inp fs.
Proof.
  intros Hq Hn.
  assert (Hin : In q voigt_types).
  { rewrite <- (factors_keys). apply dict_get_inv in Hq.
    - now apply (in_map fst) in Hq.
    - intros k'. apply string_eqb_true. }
  simpl in Hin.
  repeat (destruct Hin as [<-|Hin]); [ .. | contradiction];
    injection Hq as <-; repeat constructor; exact Hn.
Qed.

Lemma voigt_type_known q :
  In q voigt_types ->
  exists fs, dict_get String.eqb KStr (factors_mandel_to_voigt (S:=S)) q = Ok fs.
Proof.
  simpl. intros H.
  repeat (destruct H as [<-|H]); [ .. | contradiction]; eexists; reflexivity.
Qed.

(** C9, amended -- [mandel6_to_voigt] and [voigt_to_mandel6] raise the
    lookup error [KeyError] naming the quantity exactly when the key is
    outside stress, strain, stiffness, compliance.  With one of these keys
    the shape is checked by nothing but the indexing itself: an array with
    at least as many axes as the segments of the quantity index (one for
    stress and strain, two for stiffness and compliance) is processed
    without error whatever its extents, and an array with fewer axes
    raises [IndexError].  A (6,6) array passed as 'stress' is processed
    with rows 3-5 scaled as a whole. *)
Theorem voigt_errors (x : ndarray S) (q : string) :
  (~ In q voigt_types ->
     mandel6_to_voigt x q = Raise (KeyError (KStr q)) /\
     voigt_to_mandel6 x q = Raise (KeyError (KStr q))) /\
  (In q voigt_types -> quantity_ndim q <= ndim x ->
     (exists v, mandel6_to_voigt x q = Ok v /\ shape v = shape x) /\
     (exists m, voigt_to_mandel6 x q = Ok m /\ shape m = shape x)) /\
  (In q voigt_types -> ndim x < quantity_ndim q ->
     mandel6_to_voigt x q = Raise (IndexError (ndim x) (quantity_ndim q)) /\
     voigt_to_mandel6 x q = Raise (IndexError (ndim x) (quantity_ndim q))) /\
  (shape x = [6; 6] ->
     exists v, mandel6_to_voigt x "stress" = Ok v /\ shape v = [6; 6] /\
       forall i j, i < 6 -> j < 6 ->
         item v [i; j] =
           if in_shear i
           then np_mul (item x [i; j]) (np_div np_one (np_sqrt np_two))
           else item x [i; j]).
Proof.
  repeat split.
  - unfold mandel6_to_voigt.
    rewrite dict_get_absent;
      [reflexivity | intros k'; apply string_eqb_true | now rewrite factors_keys].
  - unfold voigt_to_mandel6.
    rewrite dict_get_absent;
      [reflexivity | intros k'; apply string_eqb_true | now rewrite factors_keys].
  - destruct (voigt_type_known q H) as [fs Hfs].
    destruct (mandel6_to_voigt_ok x q fs Hfs (quantity_fits x q fs Hfs H0))
      as (v & Hv & Hsh & _).
    now exists v.
  - destruct (voigt_type_known q H) as [fs Hfs].
    destruct (voigt_to_mandel6_ok x q fs Hfs (quantity_fits x q fs Hfs H0))
      as (m & Hm & Hsh & _).
    now exists m.
  - destruct x as [shp it]. simpl in H.
    repeat (destruct H as [<-|H]); [ .. | contradiction];
      destruct shp as [|n [|n' shp]]; cbn in H0; try lia; reflexivity.
  - destruct x as [shp it]. simpl in H.
    repeat (destruct H as [<-|H]); [ .. | contradiction];
      destruct shp as [|n [|n' shp]]; cbn in H0; try lia; reflexivity.
  - intros Hs.
    assert (Hfit : fits x [(shear, np_div np_one (np_sqrt np_two))]).
    { repeat constructor. unfold ndim. rewrite Hs. simpl. lia. }
    destruct (mandel6_to_voigt_ok x "stress" _ eq_refl Hfit)
      as (v & Hv & Hsh & Hit).
    exists v. split; [assumption|]. split; [congruence|].
    intros i j Hi Hj. rewrite Hit. simpl.
    unfold in_shear. now rewrite andb_true_r.
Qed.

End Voigt.

(** C9, as stated, fails: with the valid key 'stiffness' a (6,) array makes
    both functions raise (the quadrants index two axes). *)
Lemma voigt_raises_counterexample :
  In "stiffness"%string voigt_types /\
  mandel6_to_voigt (zeros (D:=float64) [6]) "stiffness" =
    Raise (IndexError 1 2) /\
  voigt_to_mandel6 (zeros (D:=float64) [6]) "stiffness" =
    Raise (IndexError 1 2).
Proof.
  split; [simpl; auto|]. split; reflexivity.
Qed.

Lemma voigt_errors_witness :
  (mandel6_to_voigt (zeros (D:=float64) [6]) "pressure" =
     Raise (KeyError (KStr "pressure")) /\
   voigt_to_mandel6 (zeros (D:=float64) [6]) "pressure" =
     Raise (KeyError (KStr "pressure"))) /\
  ((exists v, mandel6_to_voigt (zeros (D:=float64) [6; 6]) "stress" = Ok v /\
              shape v = [6; 6]) /\
   (exists m, voigt_to_mandel6 (zeros (D:=float64) [6; 6]) "stress" = Ok m /\
              shape m = [6; 6])) /\
  (mandel6_to_voigt (zeros (D:=float64) [6]) "compliance" =
     Raise (IndexError 1 2) /\
   voigt_to_mandel6 (zeros (D:=float64) [6]) "compliance" =
     Raise (IndexError 1 2)) /\
  (exists v, mandel6_to_voigt (zeros (D:=float64) [6; 6]) "stress" = Ok v /\
     shape v = [6; 6] /\
     forall i j, i < 6 -> j < 6 ->
       item v [i; j] =
         if in_shear i
         then np_mul (item (zeros (D:=float64) [6; 6]) [i; j])
                     (np_div np_one (np_sqrt np_two))
         else item (zeros (D:=float64) [6; 6]) [i; j]).
Proof.
  split; [|split; [|split]].
  - apply (proj1 (voigt_errors (zeros (D:=float64) [6]) "pressure")).
    simpl. intuition discriminate.
  - apply (proj1 (proj2 (voigt_errors (zeros (D:=float64) [6; 6]) "stress"))).
    + simpl. auto.
    + vm_compute. lia.
  - apply (proj1 (proj2 (proj2
             (voigt_errors (zeros (D:=float64) [6]) "compliance")))).
    + simpl. auto.
    + vm_compute. lia.
  - apply (proj2 (proj2 (proj2
             (voigt_errors (zeros (D:=float64) [6; 6]) "stress")))).
    reflexivity.
Defined.

Section VoigtExact.
Local Open Scope R_scope.

Lemma sqrt2_neq_0 : sqrt 2 <> 0.
Proof. pose proof sqrt2_pos. lra. Qed.

(** C6 -- For each of the four quantities and a Mandel6 array [x] of its
    order, [mandel6_to_voigt] returns a new array of the shape of [x] whose
    item in a listed segment is the item of [x] times the listed factor and
    whose other items are those of [x]; [voigt_to_mandel6] does the same
    with the reciprocals of the factors. *)
Theorem voigt_scaling (x : ndarray R) (q : string) :
  In q voigt_types -> shape x = quantity_shape q ->
  exists v m,
    mandel6_to_voigt x q = Ok v /\ voigt_to_mandel6 x q = Ok m /\
    shape v = shape x /\ shape m = shape x /\
    forall idx, in_bounds (shape x) idx = true ->
      item v idx = match spec_factor q idx with
                   | Some c => item x idx * c
                   | None => item x idx
                   end /\
      item m idx = match spec_factor q idx with
                   | Some c => item x idx * / c
                   | None => item x idx
                   end.
Proof.
  intros Hq Hs.
  destruct (voigt_type_known (S:=R) q Hq) as [fs Hfs].
  assert (Hfit : fits x fs).
  { apply (quantity_fits x q fs Hfs). unfold quantity_ndim, ndim.
    now rewrite Hs. }
  destruct (mandel6_to_voigt_ok x q fs Hfs Hfit) as (v & Hv & Hvs & Hvi).
  destruct (voigt_to_mandel6_ok x q fs Hfs Hfit) as (m & Hm & Hms & Hmi).
  exists v, m. repeat (split; [assumption|]).
  intros idx Hb. rewrite Hvi, Hmi. rewrite Hs in Hb. clear - Hq Hfs Hb.
  pose proof sqrt2_neq_0 as Hne.
  simpl in Hq.
  repeat (destruct Hq as [<-|Hq]); [ .. | contradiction];
    injection Hfs as <-; cbn [quantity_shape String.eqb Ascii.eqb Bool.eqb orb] in Hb.
  all: split_index Hb.
  all: repeat match goal with
              | H : (?i < 6)%nat |- _ => is_var i; below6 i
              end.
  all: eval_items; split; try reflexivity; field; assumption.
Qed.

End VoigtExact.

Lemma voigt_scaling_witness :
  exists v m : ndarray R,
    mandel6_to_voigt (ones [6; 6]) "stiffness" = Ok v /\
    voigt_to_mandel6 (ones [6; 6]) "stiffness" = Ok m /\
    shape v = [6; 6] /\ shape m = [6; 6] /\
    forall idx, in_bounds [6; 6] idx = true ->
      item v idx = match spec_factor "stiffness" idx with
                   | Some c => (item (ones [6; 6]%nat) idx * c)%R
                   | None => item (ones [6; 6]) idx
                   end /\
      item m idx = match spec_factor "stiffness" idx with
                   | Some c => (item (ones [6; 6]%nat) idx * / c)%R
                   | None => item (ones [6; 6]) idx
                   end.
Proof.
  apply (voigt_scaling (ones [6; 6]) "stiffness").
  - simpl. auto.
  - reflexivity.
Defined.

(** ** Sample round trips in binary64 *)

(** Rounding makes the binary64 round trips inexact
    ([factor * factor] is 0.5000000000000001); on these inputs they stay
    within the tolerance: the docstring's [np.arange(9).reshape(3, 3)] and
    the non-minor-symmetric [unit4] through Mandel9, the all-ones tensor of
    the tests through Mandel6. *)

Example roundtrip9_float64_arange9 :
  returns_within_tol (roundtrip9 arange9) arange9 = true.
Proof. vm_compute. reflexivity. Qed.

Example roundtrip9_float64_unit4 :
  returns_within_tol (roundtrip9 unit4) unit4 = true.
Proof. vm_compute. reflexivity. Qed.

Example roundtrip6_float64_ones4 :
  returns_within_tol (roundtrip6 ones4) ones4 = true.
Proof. vm_compute. reflexivity. Qed.

Example roundtrip9_float64_inexact :
  match roundtrip9 (unit4 (S:=float)) with
  | Ok out => item out [0; 1; 0; 0]
  | Raise _ => 0%float
  end = 0x1.0000000000001p+0%float.
Proof. vm_compute. reflexivity. Qed.

Example voigt_roundtrip_float64_ones :
  forallb (fun quantity =>
             match ones_to_voigt_and_back quantity with
             | Ok (back, mandel) => all_within_tol back mandel
             | Raise _ => false
             end) voigt_types = true.
Proof. vm_compute. reflexivity. Qed.

(* ================================================================== *)
(** * Further properties of the converters *)

(** ** Dispatch: pass-through, orders, idempotence *)

Section MoreDispatch.
Context {S : Type} {D : Dtype S}.

Lemma recognized_dec (shp : list nat) :
  {In shp recognized_shapes} + {~ In shp recognized_shapes}.
Proof. apply in_dec. apply list_eq_dec. apply Nat.eq_dec. Qed.

(** An entry point that returns was called on a recognized shape. *)
Lemma returns_recognized (f : ndarray S -> result (ndarray S))
    (inp out : ndarray S) :
  f = to_mandel6 \/ f = to_mandel9 \/ f = to_tensor ->
  f inp = Ok out -> In (shape inp) recognized_shapes.
Proof.
  intros Hf Hr. destruct (recognized_dec (shape inp)) as [H|H]; [exact H|].
  exfalso. revert Hr.
  destruct Hf as [-> | [-> | ->]];
    unfold to_mandel6, to_mandel9, to_tensor,
      get_to_mandel6_func, get_to_mandel9_func, get_to_tensor_func;
    rewrite (get_type_by_shape_unrecognized _ H); discriminate.
Qed.

(** X1 -- Pass-through: [to_mandel6] returns a (6,) or (6,6) array as it
    is, [to_mandel9] a (9,) or (9,9) array, [to_tensor] a (3,3) or
    (3,3,3,3) array; in particular an array in Voigt notation handed to
    [to_mandel6] comes back unchanged. *)
Theorem entry_points_pass_through (inp : ndarray S) :
  (shape inp = [6] \/ shape inp = [6; 6] -> to_mandel6 inp = Ok inp) /\
  (shape inp = [9] \/ shape inp = [9; 9] -> to_mandel9 inp = Ok inp) /\
  (shape inp = [3; 3] \/ shape inp = [3; 3; 3; 3] -> to_tensor inp = Ok inp).
Proof.
  repeat split; intros [H|H];
    unfold to_mandel6, to_mandel9, to_tensor,
      get_to_mandel6_func, get_to_mandel9_func, get_to_tensor_func,
      get_type_by_shape;
    now rewrite H.
Qed.

(** X2 -- Every entry point keeps the tensor order and lands in its own
    notation: the result of [to_mandel6] has shape (6,) or (6,6), of
    [to_mandel9] (9,) or (9,9), of [to_tensor] (3,3) or (3,3,3,3),
    according to the order of the input; hence each entry point is
    idempotent. *)
Theorem entry_points_keep_order (inp out : ndarray S) :
  (to_mandel6 inp = Ok out ->
     shape out = mandel_shape 6 (order_of_shape (shape inp)) /\
     to_mandel6 out = Ok out) /\
  (to_mandel9 inp = Ok out ->
     shape out = mandel_shape 9 (order_of_shape (shape inp)) /\
     to_mandel9 out = Ok out) /\
  (to_tensor inp = Ok out ->
     shape out = tensor_shape (order_of_shape (shape inp)) /\
     to_tensor out = Ok out).
Proof.
  repeat apply conj; intros Hr.
  - assert (Hin := returns_recognized to_mandel6 inp out (or_introl eq_refl) Hr).
    destruct inp as [shp it]. simpl in Hin.
    repeat (destruct Hin as [Hin|Hin]; [subst shp|]); [ .. | contradiction];
      injection Hr as <-; split; reflexivity.
  - assert (Hin := returns_recognized to_mandel9 inp out
                     (or_intror (or_introl eq_refl)) Hr).
    destruct inp as [shp it]. simpl in Hin.
    repeat (destruct Hin as [Hin|Hin]; [subst shp|]); [ .. | contradiction];
      injection Hr as <-; split; reflexivity.
  - assert (Hin := returns_recognized to_tensor inp out
                     (or_intror (or_intror eq_refl)) Hr).
    destruct inp as [shp it]. simpl in Hin.
    repeat (destruct Hin as [Hin|Hin]; [subst shp|]); [ .. | contradiction];
      injection Hr as <-; split; reflexivity.
Qed.

End MoreDispatch.

Lemma entry_points_pass_through_witness :
  to_mandel6 (ones (D:=float64) [6; 6]) = Ok (ones [6; 6]) /\
  to_mandel9 (ones (D:=float64) [9]) = Ok (ones [9]) /\
  to_tensor (ones (D:=float64) [3; 3]) = Ok (ones [3; 3]).
Proof.
  split; [|split].
  - apply (proj1 (entry_points_pass_through (ones (D:=float64) [6; 6]))).
    right. reflexivity.
  - apply (proj1 (proj2 (entry_points_pass_through (ones (D:=float64) [9])))).
    left. reflexivity.
  - apply (proj2 (proj2 (entry_points_pass_through (ones (D:=float64) [3; 3])))).
    left. reflexivity.
Defined.

Lemma entry_points_keep_order_witness :
  (exists out : ndarray float,
     to_mandel6 (ones [3; 3]) = Ok out /\
     shape out = [6] /\ to_mandel6 out = Ok out) /\
  (exists out : ndarray float,
     to_mandel9 (ones [6; 6]) = Ok out /\
     shape out = [9; 9] /\ to_mandel9 out = Ok out) /\
  (exists out : ndarray float,
     to_tensor (ones [9]) = Ok out /\
     shape out = [3; 3] /\ to_tensor out = Ok out).
Proof.
  split; [|split]; eexists; (split; [reflexivity|]).
  - apply (proj1 (entry_points_keep_order (ones (D:=float64) [3; 3]) _)).
    reflexivity.
  - apply (proj1 (proj2 (entry_points_keep_order (ones (D:=float64) [6; 6]) _))).
    reflexivity.
  - apply (proj2 (proj2 (entry_points_keep_order (ones (D:=float64) [9]) _))).
    reflexivity.
Defined.

(** ** Between Mandel6 and Mandel9 *)

(** Unfold slice arithmetic on index tuples with symbolic entries. *)
Ltac simpl_slices :=
  cbn [item in_position in_slice SLICE6 offset_sub offset_add slice_start
       Nat.add Nat.leb];
  rewrite ?Nat.sub_0_r, ?andb_true_r; cbn [andb].

Ltac rewrite_lt :=
  repeat match goal with
         | H : ?i < ?n |- context [?i <? ?n] =>
             rewrite (proj2 (Nat.ltb_lt i n) H)
         end; cbn [andb].

Section PadTruncate.
Context {S : Type} {D : Dtype S}.

Lemma to_mandel9_m6_2 (inp : ndarray S) :
  shape inp = [6] -> to_mandel9 inp = mandel6_2_to_mandel9 inp.
Proof. intros H. unfold to_mandel9, get_to_mandel9_func, get_type_by_shape. now rewrite H. Qed.

Lemma to_tensor_m6_2 (inp : ndarray S) :
  shape inp = [6] -> to_tensor inp = mandel6_2_to_tensor inp.
Proof. intros H. unfold to_tensor, get_to_tensor_func, get_type_by_shape. now rewrite H. Qed.

Lemma to_mandel9_m6_4 (inp : ndarray S) :
  shape inp = [6; 6] -> to_mandel9 inp = mandel6_4_to_mandel9 inp.
Proof. intros H. unfold to_mandel9, get_to_mandel9_func, get_type_by_shape. now rewrite H. Qed.

(** X3 -- Zero padding: [to_mandel9] of a (6,) array keeps its six items
    and sets the three skew components to zero, of a (6,6) array keeps the
    top-left block and sets every item of rows and columns 6-8 to zero;
    [to_mandel6] of the result gives the array back. *)
Theorem mandel6_to_mandel9_pads (m : ndarray S) :
  (shape m = [6] ->
     exists m9 m6,
       to_mandel9 m = Ok m9 /\ shape m9 = [9] /\
       (forall a, a < 9 ->
          item m9 [a] = if a <? 6 then item m [a] else np_zero) /\
       to_mandel6 m9 = Ok m6 /\ array_eq m6 m) /\
  (shape m = [6; 6] ->
     exists m9 m6,
       to_mandel9 m = Ok m9 /\ shape m9 = [9; 9] /\
       (forall a b, a < 9 -> b < 9 ->
          item m9 [a; b] =
            if (a <? 6) && (b <? 6) then item m [a; b] else np_zero) /\
       to_mandel6 m9 = Ok m6 /\ array_eq m6 m).
Proof.
  split; intros H.
  - rewrite to_mandel9_m6_2 by exact H. unfold mandel6_2_to_mandel9.
    rewrite setslice_ok by (rewrite ?H; solve [cbn; lia | reflexivity]).
    do 2 eexists. split; [reflexivity|]. split; [reflexivity|].
    split.
    { intros a Ha. simpl_slices. reflexivity. }
    rewrite to_mandel6_m9_2 by reflexivity. unfold mandel9_2_to_mandel6.
    rewrite getslice_ok by (cbn; lia).
    split; [reflexivity|]. split; [now rewrite H|].
    intros idx Hb. change (in_bounds [6] idx = true) in Hb. split_index Hb.
    simpl_slices. now rewrite_lt.
  - rewrite to_mandel9_m6_4 by exact H. unfold mandel6_4_to_mandel9.
    rewrite setslice_ok by (rewrite ?H; solve [cbn; lia | reflexivity]).
    do 2 eexists. split; [reflexivity|]. split; [reflexivity|].
    split.
    { intros a b Ha Hb. simpl_slices. reflexivity. }
    rewrite to_mandel6_m9_4 by reflexivity. unfold mandel9_4_to_mandel6.
    rewrite getslice_ok by (cbn; lia).
    split; [reflexivity|]. split; [now rewrite H|].
    intros idx Hb. change (in_bounds [6; 6] idx = true) in Hb. split_index Hb.
    simpl_slices. now rewrite_lt.
Qed.

(** X4 -- Truncation: [to_mandel6] of a (9,) array returns its first six
    items, of a (9,9) array its top-left 6x6 block, without error; the
    skew components are dropped, and [to_mandel9] of the result has zeros
    in their place. *)
Theorem mandel9_to_mandel6_truncates (m9 : ndarray S) :
  (shape m9 = [9] ->
     exists m6 back,
       to_mandel6 m9 = Ok m6 /\ shape m6 = [6] /\
       (forall a, a < 6 -> item m6 [a] = item m9 [a]) /\
       to_mandel9 m6 = Ok back /\ shape back = [9] /\
       (forall a, a < 9 ->
          item back [a] = if a <? 6 then item m9 [a] else np_zero)) /\
  (shape m9 = [9; 9] ->
     exists m6 back,
       to_mandel6 m9 = Ok m6 /\ shape m6 = [6; 6] /\
       (forall a b, a < 6 -> b < 6 -> item m6 [a; b] = item m9 [a; b]) /\
       to_mandel9 m6 = Ok back /\ shape back = [9; 9] /\
       (forall a b, a < 9 -> b < 9 ->
          item back [a; b] =
            if (a <? 6) && (b <? 6) then item m9 [a; b] else np_zero)).
Proof.
  split; intros H.
  - rewrite to_mandel6_m9_2 by exact H. unfold mandel9_2_to_mandel6.
    rewrite getslice_ok by (unfold ndim; rewrite H; cbn; lia).
    rewrite H.
    do 2 eexists. split; [reflexivity|]. split; [reflexivity|].
    split; [intros a Ha; reflexivity|].
    rewrite to_mandel9_m6_2 by reflexivity. unfold mandel6_2_to_mandel9.
    rewrite setslice_ok by solve [cbn; lia | reflexivity].
    split; [reflexivity|]. split; [reflexivity|].
    intros a Ha. simpl_slices. reflexivity.
  - rewrite to_mandel6_m9_4 by exact H. unfold mandel9_4_to_mandel6.
    rewrite getslice_ok by (unfold ndim; rewrite H; cbn; lia).
    rewrite H.
    do 2 eexists. split; [reflexivity|]. split; [reflexivity|].
    split; [intros a b Ha Hb; reflexivity|].
    rewrite to_mandel9_m6_4 by reflexivity. unfold mandel6_4_to_mandel9.
    rewrite setslice_ok by solve [cbn; lia | reflexivity].
    split; [reflexivity|]. split; [reflexivity|].
    intros a b Ha Hb. simpl_slices. reflexivity.
Qed.

Lemma BASE6_symmetric a j k :
  a < 6 -> j < 3 -> k < 3 ->
  item (BASE6 (S:=S)) [a; j; k] = item BASE6 [a; k; j].
Proof.
  intros Ha Hj Hk. below6 a; below3 j; below3 k; reflexivity.
Qed.

(** X5 -- At every dtype, bit for bit, [to_tensor] of a (6,) array is a
    symmetric 3x3 array and [to_tensor] of a (6,6) array is a
    minor-symmetric 3x3x3x3 array. *)
Theorem mandel6_to_tensor_symmetric (m T : ndarray S) :
  (shape m = [6] -> to_tensor m = Ok T ->
     shape T = [3; 3] /\
     forall j k, j < 3 -> k < 3 -> item T [j; k] = item T [k; j]) /\
  (shape m = [6; 6] -> to_tensor m = Ok T ->
     shape T = [3; 3; 3; 3] /\
     forall i j k l, i < 3 -> j < 3 -> k < 3 -> l < 3 ->
       item T [i; j; k; l] = item T [j; i; k; l] /\
       item T [i; j; k; l] = item T [i; j; l; k]).
Proof.
  split; intros H Hr.
  - rewrite to_tensor_m6_2 in Hr by exact H. unfold mandel6_2_to_tensor in Hr.
    rewrite mandel_2_to_tensor_ok with (K := 6) in Hr
      by (exact shape_BASE6 || exact H).
    injection Hr as <-. split; [reflexivity|].
    intros j k Hj Hk.
    change (sum_range 6 (fun a => np_mul (item BASE6 [a; j; k]) (item m [a])) =
            sum_range 6 (fun a => np_mul (item BASE6 [a; k; j]) (item m [a]))).
    apply sum_range_ext. intros a Ha. now rewrite BASE6_symmetric.
  - rewrite to_tensor_m6_4 in Hr by exact H. unfold mandel6_4_to_tensor in Hr.
    rewrite mandel_4_to_tensor_ok with (K := 6) in Hr
      by (exact shape_BASE6 || exact H).
    injection Hr as <-. split; [reflexivity|].
    intros i j k l Hi Hj Hk Hl.
    set (entry := fun i j k l =>
      sum_range 6 (fun a => sum_range 6 (fun b =>
        np_mul (np_mul (item BASE6 [a; i; j]) (item m [a; b]))
               (item BASE6 [b; k; l])))).
    change (entry i j k l = entry j i k l /\ entry i j k l = entry i j l k).
    unfold entry.
    split; apply sum_range_ext; intros a Ha;
      apply sum_range_ext; intros b Hb.
    + now rewrite (BASE6_symmetric a i j).
    + now rewrite (BASE6_symmetric b k l).
Qed.

End PadTruncate.

Lemma mandel6_to_mandel9_pads_witness :
  (exists m9 m6 : ndarray float,
     to_mandel9 (ones [6]) = Ok m9 /\ shape m9 = [9] /\
     (forall a, a < 9 ->
        item m9 [a] = if a <? 6 then item (ones [6]) [a] else np_zero) /\
     to_mandel6 m9 = Ok m6 /\ array_eq m6 (ones [6])) /\
  (exists m9 m6 : ndarray float,
     to_mandel9 (ones [6; 6]) = Ok m9 /\ shape m9 = [9; 9] /\
     (forall a b, a < 9 -> b < 9 ->
        item m9 [a; b] =
          if (a <? 6) && (b <? 6) then item (ones [6; 6]) [a; b] else np_zero) /\
     to_mandel6 m9 = Ok m6 /\ array_eq m6 (ones [6; 6])).
Proof.
  split.
  - apply (proj1 (mandel6_to_mandel9_pads (ones (D:=float64) [6]))).
    reflexivity.
  - apply (proj2 (mandel6_to_mandel9_pads (ones (D:=float64) [6; 6]))).
    reflexivity.
Defined.

Lemma mandel9_to_mandel6_truncates_witness :
  (exists m6 back : ndarray float,
     to_mandel6 (ones [9]) = Ok m6 /\ shape m6 = [6] /\
     (forall a, a < 6 -> item m6 [a] = item (ones [9]) [a]) /\
     to_mandel9 m6 = Ok back /\ shape back = [9] /\
     (forall a, a < 9 ->
        item back [a] = if a <? 6 then item (ones [9]) [a] else np_zero)) /\
  (exists m6 back : ndarray float,
     to_mandel6 (ones [9; 9]) = Ok m6 /\ shape m6 = [6; 6] /\
     (forall a b, a < 6 -> b < 6 -> item m6 [a; b] = item (ones [9; 9]) [a; b]) /\
     to_mandel9 m6 = Ok back /\ shape back = [9; 9] /\
     (forall a b, a < 9 -> b < 9 ->
        item back [a; b] =
          if (a <? 6) && (b <? 6) then item (ones [9; 9]) [a; b] else np_zero)).
Proof.
  split.
  - apply (proj1 (mandel9_to_mandel6_truncates (ones (D:=float64) [9]))).
    reflexivity.
  - apply (proj2 (mandel9_to_mandel6_truncates (ones (D:=float64) [9; 9]))).
    reflexivity.
Defined.

Lemma mandel6_to_tensor_symmetric_witness :
  (exists T : ndarray float,
     to_tensor (ones [6]) = Ok T /\ shape T = [3; 3] /\
     forall j k, j < 3 -> k < 3 -> item T [j; k] = item T [k; j]) /\
  (exists T : ndarray float,
     to_tensor (ones [6; 6]) = Ok T /\ shape T = [3; 3; 3; 3] /\
     forall i j k l, i < 3 -> j < 3 -> k < 3 -> l < 3 ->
       item T [i; j; k; l] = item T [j; i; k; l] /\
       item T [i; j; k; l] = item T [i; j; l; k]).
Proof.
  split; eexists; (split; [reflexivity|]).
  - apply (proj1 (mandel6_to_tensor_symmetric (ones (D:=float64) [6]) _));
      reflexivity.
  - apply (proj2 (mandel6_to_tensor_symmetric (ones (D:=float64) [6; 6]) _));
      reflexivity.
Defined.

(** ** Orthonormality at work: reverse round trips *)

Section Reverse.
Local Open Scope R_scope.

Lemma contract_ext (B : ndarray R) (X Y : nat -> nat -> R) a :
  (forall i j, (i < 3)%nat -> (j < 3)%nat -> X i j = Y i j) ->
  contract B X a = contract B Y a.
Proof.
  intros E. unfold contract. apply sum_range_ext. intros i Hi.
  apply sum_range_ext. intros j Hj. now rewrite E.
Qed.

Lemma contract_expand9 (v : nat -> R) a :
  (a < 9)%nat -> contract BASE9 (expand 9 BASE9 v) a = v a.
Proof.
  intros Ha. unfold expand, contract. below9 a; eval_items; by_factor.
Qed.

Lemma contract_expand6 (v : nat -> R) a :
  (a < 6)%nat -> contract BASE6 (expand 6 BASE6 v) a = v a.
Proof.
  intros Ha. unfold expand, contract. below6 a; eval_items; by_factor.
Qed.

Lemma project4_rebuild4 K (B : ndarray R) (M : nat -> nat -> R) :
  (forall v a, (a < K)%nat -> contract B (expand K B v) a = v a) ->
  forall (T : ndarray R) a b, (a < K)%nat -> (b < K)%nat ->
  (forall i j k l, (i < 3)%nat -> (j < 3)%nat -> (k < 3)%nat -> (l < 3)%nat ->
     item T [i; j; k; l] = rebuild4 K B M i j k l) ->
  project4 B T a b = M a b.
Proof.
  intros Hce T a b Ha Hb HT. rewrite project4_pairs.
  transitivity (contract B (expand K B (M a)) b); [|now apply Hce].
  apply contract_ext. intros k l Hk Hl.
  transitivity
    (contract B (expand K B (fun a' => expand K B (M a') k l)) a);
    [|now rewrite Hce].
  apply contract_ext. intros i j Hi Hj.
  rewrite HT by assumption. apply rebuild4_pairs.
Qed.

End Reverse.

(** X6 -- Mandel9 to tensor and back: for every (9,) and every (9,9)
    array M, [to_mandel9(to_tensor(M))] has the shape and the items of M
    (in exact arithmetic). *)
Theorem mandel9_tensor_mandel9 (M : ndarray R) :
  (shape M = [9] ->
     exists T M', to_tensor M = Ok T /\ to_mandel9 T = Ok M' /\
                  array_eq M' M) /\
  (shape M = [9; 9] ->
     exists T M', to_tensor M = Ok T /\ to_mandel9 T = Ok M' /\
                  array_eq M' M).
Proof.
  split; intros H.
  - rewrite to_tensor_m9_2 by exact H.
    unfold mandel9_2_to_tensor.
    rewrite mandel_2_to_tensor_ok with (K := 9) by (exact shape_BASE9 || exact H).
    do 2 eexists. split; [reflexivity|].
    rewrite to_mandel9_t2 by reflexivity. unfold tensor2_to_mandel9.
    rewrite tensor2_to_mandel_ok with (K := 9) by (exact shape_BASE9 || reflexivity).
    split; [reflexivity|]. split; [now rewrite H|].
    intros idx Hb. cbn [shape] in Hb. split_index Hb.
    apply (contract_expand9 (fun a => item M [a])). assumption.
  - rewrite to_tensor_m9_4 by exact H.
    unfold mandel9_4_to_tensor.
    rewrite mandel_4_to_tensor_ok with (K := 9) by (exact shape_BASE9 || exact H).
    do 2 eexists. split; [reflexivity|].
    rewrite to_mandel9_t4 by reflexivity. unfold tensor4_to_mandel9.
    rewrite tensor4_to_mandel_ok with (K := 9) by (exact shape_BASE9 || reflexivity).
    split; [reflexivity|]. split; [now rewrite H|].
    intros idx Hb. cbn [shape] in Hb. split_index Hb.
    apply (project4_rebuild4 9 BASE9 (fun a b => item M [a; b]) contract_expand9);
      try assumption.
    intros ? ? ? ? _ _ _ _. reflexivity.
Qed.

(** X7 -- Mandel6 to tensor and back: for every (6,) and every (6,6)
    array M, [to_mandel6(to_tensor(M))] has the shape and the items of M
    (in exact arithmetic). *)
Theorem mandel6_tensor_mandel6 (M : ndarray R) :
  (shape M = [6] ->
     exists T M', to_tensor M = Ok T /\ to_mandel6 T = Ok M' /\
                  array_eq M' M) /\
  (shape M = [6; 6] ->
     exists T M', to_tensor M = Ok T /\ to_mandel6 T = Ok M' /\
                  array_eq M' M).
Proof.
  split; intros H.
  - rewrite to_tensor_m6_2 by exact H.
    unfold mandel6_2_to_tensor.
    rewrite mandel_2_to_tensor_ok with (K := 6) by (exact shape_BASE6 || exact H).
    do 2 eexists. split; [reflexivity|].
    rewrite to_mandel6_t2 by reflexivity. unfold tensor2_to_mandel6.
    rewrite tensor2_to_mandel_ok with (K := 6) by (exact shape_BASE6 || reflexivity).
    split; [reflexivity|]. split; [now rewrite H|].
    intros idx Hb. cbn [shape] in Hb. split_index Hb.
    apply (contract_expand6 (fun a => item M [a])). assumption.
  - rewrite to_tensor_m6_4 by exact H.
    unfold mandel6_4_to_tensor.
    rewrite mandel_4_to_tensor_ok with (K := 6) by (exact shape_BASE6 || exact H).
    do 2 eexists. split; [reflexivity|].
    rewrite to_mandel6_t4 by reflexivity. unfold tensor4_to_mandel6.
    rewrite tensor4_to_mandel_ok with (K := 6) by (exact shape_BASE6 || reflexivity).
    split; [reflexivity|]. split; [now rewrite H|].
    intros idx Hb. cbn [shape] in Hb. split_index Hb.
    apply (project4_rebuild4 6 BASE6 (fun a b => item M [a; b]) contract_expand6);
      try assumption.
    intros ? ? ? ? _ _ _ _. reflexivity.
Qed.

Lemma mandel9_tensor_mandel9_witness :
  (exists T M' : ndarray R,
     to_tensor (ones [9]) = Ok T /\ to_mandel9 T = Ok M' /\
     array_eq M' (ones [9])) /\
  (exists T M' : ndarray R,
     to_tensor (ones [9; 9]) = Ok T /\ to_mandel9 T = Ok M' /\
     array_eq M' (ones [9; 9])).
Proof.
  split.
  - apply (proj1 (mandel9_tensor_mandel9 (ones [9]))). reflexivity.
  - apply (proj2 (mandel9_tensor_mandel9 (ones [9; 9]))). reflexivity.
Defined.

Lemma mandel6_tensor_mandel6_witness :
  (exists T M' : ndarray R,
     to_tensor (ones [6]) = Ok T /\ to_mandel6 T = Ok M' /\
     array_eq M' (ones [6])) /\
  (exists T M' : ndarray R,
     to_tensor (ones [6; 6]) = Ok T /\ to_mandel6 T = Ok M' /\
     array_eq M' (ones [6; 6])).
Proof.
  split.
  - apply (proj1 (mandel6_tensor_mandel6 (ones [6]))). reflexivity.
  - apply (proj2 (mandel6_tensor_mandel6 (ones [6; 6]))). reflexivity.
Defined.

(** ** Symmetric and skew parts *)

Section SymSkew.
Local Open Scope R_scope.

Lemma half_sqrt2_pos : 0 < sqrt 2 / 2.
Proof. pose proof sqrt2_pos. lra. Qed.

(** The three skew components of a 3x3 block. *)
Lemma contract9_skew (X : nat -> nat -> R) :
  contract BASE9 X 6%nat = sqrt 2 / 2 * (X 2%nat 1%nat - X 1%nat 2%nat) /\
  contract BASE9 X 7%nat = sqrt 2 / 2 * (X 0%nat 2%nat - X 2%nat 0%nat) /\
  contract BASE9 X 8%nat = sqrt 2 / 2 * (X 1%nat 0%nat - X 0%nat 1%nat).
Proof. unfold contract. repeat split; eval_items; ring. Qed.

Lemma contract9_skew_zero (X : nat -> nat -> R) a :
  (6 <= a < 9)%nat ->
  (forall i j, (i < 3)%nat -> (j < 3)%nat -> X i j = X j i) ->
  contract BASE9 X a = 0.
Proof.
  intros Ha HX. destruct (contract9_skew X) as (E6 & E7 & E8).
  assert (a = 6 \/ a = 7 \/ a = 8)%nat as [-> | [-> | ->]] by lia.
  - rewrite E6, (HX 2 1)%nat by lia. ring.
  - rewrite E7, (HX 0 2)%nat by lia. ring.
  - rewrite E8, (HX 1 0)%nat by lia. ring.
Qed.

Lemma contract_zero (B : ndarray R) (X : nat -> nat -> R) a :
  (forall i j, (i < 3)%nat -> (j < 3)%nat -> X i j = 0) ->
  contract B X a = 0.
Proof.
  intros HX. rewrite (contract_ext B X (fun _ _ => 0) a HX).
  unfold contract. simpl. ring.
Qed.

End SymSkew.

(** X8 -- Mandel6 round trip of a second-order tensor: for every 3x3
    array T, [to_tensor(to_mandel6(T))] is its symmetric part
    [(T + T^t) / 2]; it has the items of T exactly when T is symmetric
    (in exact arithmetic; no error is raised either way). *)
Theorem mandel6_roundtrip_order2 (T : ndarray R) :
  shape T = [3; 3] ->
  exists T', roundtrip6 T = Ok T' /\ shape T' = [3; 3] /\
    (forall j k, j < 3 -> k < 3 ->
       (2 * item T' [j; k] = item T [j; k] + item T [k; j])%R) /\
    (symmetric T <-> array_eq T' T).
Proof.
  intros H. unfold roundtrip6.
  rewrite to_mandel6_t2 by exact H. unfold tensor2_to_mandel6.
  rewrite tensor2_to_mandel_ok with (K := 6) by (exact shape_BASE6 || exact H).
  cbn [bind].
  rewrite to_tensor_m6_2 by reflexivity. unfold mandel6_2_to_tensor.
  rewrite mandel_2_to_tensor_ok with (K := 6) by reflexivity.
  eexists. split; [reflexivity|]. split; [reflexivity|].
  assert (E : forall j k, j < 3 -> k < 3 ->
    (2 * expand 6 BASE6 (contract BASE6 (fun i l => item T [i; l])) j k =
     item T [j; k] + item T [k; j])%R).
  { intros j k Hj Hk. now apply (expand_contract6 (fun i l => item T [i; l])). }
  split; [exact E|]. split.
  - intros Hsym. split; [now rewrite H|].
    intros idx Hb. cbn [shape] in Hb. split_index Hb.
    match goal with
    | |- _ ?M [?j; ?k] = _ =>
        change (expand 6 BASE6 (contract BASE6 (fun i l => item T [i; l])) j k
                = item T [j; k]);
        pose proof (E j k ltac:(assumption) ltac:(assumption));
        pose proof (Hsym j k ltac:(assumption) ltac:(assumption))
    end.
    lra.
  - intros [_ Heq] j k Hj Hk.
    assert (Hin : forall a b, a < 3 -> b < 3 ->
      item T [a; b] =
      expand 6 BASE6 (contract BASE6 (fun i l => item T [i; l])) a b).
    { intros a b Ha Hb. symmetry. apply (Heq [a; b]). simpl.
      apply Nat.ltb_lt in Ha, Hb. now rewrite Ha, Hb. }
    pose proof (E j k Hj Hk). pose proof (E k j Hk Hj).
    rewrite (Hin j k), (Hin k j) by assumption. lra.
Qed.

Lemma mandel6_roundtrip_order2_witness :
  exists T' : ndarray R,
    roundtrip6 arange9 = Ok T' /\ shape T' = [3; 3] /\
    (forall j k, j < 3 -> k < 3 ->
       (2 * item T' [j; k] = item arange9 [j; k] + item arange9 [k; j])%R) /\
    (symmetric arange9 <-> array_eq T' arange9).
Proof. apply (mandel6_roundtrip_order2 arange9). reflexivity. Defined.

(** X9 -- The skew components measure the lack of symmetry: a 3x3 array T
    is symmetric exactly when the components 6, 7, 8 of [to_mandel9(T)]
    are zero; for a minor-symmetric 3x3x3x3 array, every item of
    [to_mandel9(T)] in rows or columns 6-8 is zero (in exact arithmetic). *)
Theorem mandel9_skew_components (T : ndarray R) :
  (shape T = [3; 3] ->
     exists m9, to_mandel9 T = Ok m9 /\
       (symmetric T <->
        forall a, 6 <= a < 9 -> item m9 [a] = 0%R)) /\
  (shape T = [3; 3; 3; 3] -> minor_symmetric T ->
     exists m9, to_mandel9 T = Ok m9 /\
       forall a b, a < 9 -> b < 9 -> 6 <= a \/ 6 <= b ->
         item m9 [a; b] = 0%R).
Proof.
  split.
  - intros H. rewrite to_mandel9_t2 by exact H. unfold tensor2_to_mandel9.
    rewrite tensor2_to_mandel_ok with (K := 9) by (exact shape_BASE9 || exact H).
    eexists. split; [reflexivity|].
    set (X := fun i j => item T [i; j]).
    change ((forall i j, i < 3 -> j < 3 -> X i j = X j i) <->
            (forall a, 6 <= a < 9 -> contract BASE9 X a = 0%R)).
    split.
    + intros Hsym a Ha. now apply contract9_skew_zero.
    + intros Hz. destruct (contract9_skew X) as (E6 & E7 & E8).
      rewrite (Hz 6) in E6 by lia. rewrite (Hz 7) in E7 by lia.
      rewrite (Hz 8) in E8 by lia.
      pose proof half_sqrt2_pos as Hp.
      assert (X 2 1 = X 1 2) by nra.
      assert (X 0 2 = X 2 0) by nra.
      assert (X 1 0 = X 0 1) by nra.
      intros i j Hi Hj. below3 i; below3 j; congruence.
  - intros H Hsym. rewrite to_mandel9_t4 by exact H. unfold tensor4_to_mandel9.
    rewrite tensor4_to_mandel_ok with (K := 9) by (exact shape_BASE9 || exact H).
    eexists. split; [reflexivity|].
    intros a b Ha Hb Hab.
    change (project4 BASE9 T a b = 0%R). rewrite project4_pairs.
    destruct Hab as [Ha6 | Hb6].
    + apply contract_zero. intros k l Hk Hl.
      apply contract9_skew_zero; [lia|].
      intros i j Hi Hj. now apply Hsym.
    + apply contract9_skew_zero; [lia|].
      intros k l Hk Hl. apply contract_ext. intros i j Hi Hj.
      now apply Hsym.
Qed.

Lemma mandel9_skew_components_witness :
  (exists m9 : ndarray R, to_mandel9 (ones [3; 3]) = Ok m9 /\
     (symmetric (ones [3; 3]) <->
      forall a, 6 <= a < 9 -> item m9 [a] = 0%R)) /\
  (exists m9 : ndarray R, to_mandel9 ones4 = Ok m9 /\
     forall a b, a < 9 -> b < 9 -> 6 <= a \/ 6 <= b ->
       item m9 [a; b] = 0%R).
Proof.
  split.
  - apply (proj1 (mandel9_skew_components (ones [3; 3]))). reflexivity.
  - apply (proj2 (mandel9_skew_components ones4)).
    + reflexivity.
    + intros i j k l _ _ _ _. split; reflexivity.
Defined.

Section PadTensor.
Local Open Scope R_scope.

Lemma expand_padded (v : nat -> R) j k :
  expand 9 BASE9 (fun a => if (a <? 6)%nat then v a else 0) j k =
  expand 6 BASE6 v j k.
Proof.
  unfold expand. cbn [sum_range Nat.ltb Nat.leb np_add np_zero exact].
  rewrite (BASE9_first6 0 j k), (BASE9_first6 1 j k), (BASE9_first6 2 j k),
    (BASE9_first6 3 j k), (BASE9_first6 4 j k), (BASE9_first6 5 j k) by lia.
  ring.
Qed.

Lemma rebuild4_padded (M : nat -> nat -> R) j k m n :
  rebuild4 9 BASE9
    (fun a b => if ((a <? 6) && (b <? 6))%nat then M a b else 0) j k m n =
  rebuild4 6 BASE6 M j k m n.
Proof.
  rewrite !rebuild4_pairs.
  rewrite <- (expand_padded (fun a => expand 6 BASE6 (fun b => M a b) m n) j k).
  unfold expand at 1 3. apply sum_range_ext. intros a _. f_equal.
  destruct (a <? 6)%nat; cbn [andb].
  - apply expand_padded.
  - unfold expand. simpl. ring.
Qed.

End PadTensor.

(** X10 -- A Mandel6 array and its zero-padded Mandel9 form stand for the
    same tensor: for every (6,) and every (6,6) array m,
    [to_tensor(to_mandel9(m))] has the shape and items of [to_tensor(m)]
    (in exact arithmetic). *)
Theorem padding_keeps_tensor (m : ndarray R) :
  (shape m = [6] ->
     exists m9 T T', to_mandel9 m = Ok m9 /\ to_tensor m9 = Ok T /\
                     to_tensor m = Ok T' /\ array_eq T T') /\
  (shape m = [6; 6] ->
     exists m9 T T', to_mandel9 m = Ok m9 /\ to_tensor m9 = Ok T /\
                     to_tensor m = Ok T' /\ array_eq T T').
Proof.
  split; intros H.
  - rewrite to_mandel9_m6_2 by exact H. unfold mandel6_2_to_mandel9.
    rewrite setslice_ok by (rewrite ?H; solve [cbn; lia | reflexivity]).
    rewrite to_tensor_m6_2 by exact H. unfold mandel6_2_to_tensor.
    rewrite mandel_2_to_tensor_ok with (K := 6) by (exact shape_BASE6 || exact H).
    do 3 eexists. split; [reflexivity|].
    rewrite to_tensor_m9_2 by reflexivity. unfold mandel9_2_to_tensor.
    rewrite mandel_2_to_tensor_ok with (K := 9) by reflexivity.
    split; [reflexivity|]. split; [reflexivity|]. split; [reflexivity|].
    intros idx Hb. cbn [shape] in Hb. split_index Hb.
    match goal with
    | |- _ _ [?j; ?k] = _ =>
        transitivity
          (expand 9 BASE9
             (fun a => if a <? 6 then item m [a] else 0%R) j k);
          [|exact (expand_padded (fun a => item m [a]) j k)]
    end.
    apply sum_range_ext. intros a Ha. cbn [item]. f_equal.
    simpl_slices. destruct (a <? 6)%nat; reflexivity.
  - rewrite to_mandel9_m6_4 by exact H. unfold mandel6_4_to_mandel9.
    rewrite setslice_ok by (rewrite ?H; solve [cbn; lia | reflexivity]).
    rewrite to_tensor_m6_4 by exact H. unfold mandel6_4_to_tensor.
    rewrite mandel_4_to_tensor_ok with (K := 6) by (exact shape_BASE6 || exact H).
    do 3 eexists. split; [reflexivity|].
    rewrite to_tensor_m9_4 by reflexivity. unfold mandel9_4_to_tensor.
    rewrite mandel_4_to_tensor_ok with (K := 9) by reflexivity.
    split; [reflexivity|]. split; [reflexivity|]. split; [reflexivity|].
    intros idx Hb. cbn [shape] in Hb. split_index Hb.
    match goal with
    | |- _ _ [?j; ?k; ?p; ?q] = _ =>
        transitivity
          (rebuild4 9 BASE9
             (fun a b => if (a <? 6) && (b <? 6) then item m [a; b] else 0%R)
             j k p q);
          [|exact (rebuild4_padded (fun a b => item m [a; b]) j k p q)]
    end.
    apply sum_range_ext. intros a Ha. apply sum_range_ext. intros b Hb'.
    cbn [item]. f_equal. f_equal.
    simpl_slices. destruct (a <? 6)%nat, (b <? 6)%nat; reflexivity.
Qed.

Lemma padding_keeps_tensor_witness :
  (exists m9 T T' : ndarray R,
     to_mandel9 (ones [6]) = Ok m9 /\ to_tensor m9 = Ok T /\
     to_tensor (ones [6]) = Ok T' /\ array_eq T T') /\
  (exists m9 T T' : ndarray R,
     to_mandel9 (ones [6; 6]) = Ok m9 /\ to_tensor m9 = Ok T /\
     to_tensor (ones [6; 6]) = Ok T' /\ array_eq T T').
Proof.
  split.
  - apply (proj1 (padding_keeps_tensor (ones [6]))). reflexivity.
  - apply (proj2 (padding_keeps_tensor (ones [6; 6]))). reflexivity.
Defined.

(** ** Scalar products and double contractions *)

Section Isometry.
Local Open Scope R_scope.

Lemma dot_contract K (B : ndarray R) (c : nat -> R) (Y : nat -> nat -> R) :
  sum_range K (fun a => c a * contract B Y a) =
  sum_range 3 (fun i => sum_range 3 (fun j => expand K B c i j * Y i j)).
Proof.
  induction K as [|K IH].
  - unfold expand. simpl. ring.
  - cbn [sum_range np_add exact]. rewrite IH.
    unfold contract, expand. simpl. ring.
Qed.

Lemma isometry9 (X Y : nat -> nat -> R) :
  sum_range 9 (fun a => contract BASE9 X a * contract BASE9 Y a) =
  sum_range 3 (fun i => sum_range 3 (fun j => X i j * Y i j)).
Proof.
  rewrite (dot_contract 9 BASE9 (contract BASE9 X) Y).
  apply sum_range_ext. intros i Hi. apply sum_range_ext. intros j Hj.
  now rewrite expand_contract9.
Qed.

Lemma isometry6 (X Y : nat -> nat -> R) :
  (forall i j, (i < 3)%nat -> (j < 3)%nat -> X i j = X j i) ->
  sum_range 6 (fun a => contract BASE6 X a * contract BASE6 Y a) =
  sum_range 3 (fun i => sum_range 3 (fun j => X i j * Y i j)).
Proof.
  intros HX.
  rewrite (dot_contract 6 BASE6 (contract BASE6 X) Y).
  apply sum_range_ext. intros i Hi. apply sum_range_ext. intros j Hj.
  f_equal. pose proof (expand_contract6 X i j Hi Hj) as E.
  rewrite <- (HX i j) in E by assumption. lra.
Qed.

Lemma contract_double (B T E : ndarray R) a :
  sum_range 3 (fun k => sum_range 3 (fun l =>
    contract B (fun i j => item T [i; j; k; l]) a * item E [k; l])) =
  contract B (double_contraction T E) a.
Proof. unfold contract, double_contraction. simpl. ring. Qed.

End Isometry.

(** X11 -- The reduced notations keep the scalar product: for 3x3 arrays
    A and B the dot product of [to_mandel9(A)] and [to_mandel9(B)] is the
    sum of [A[i,j] * B[i,j]]; the same holds for [to_mandel6] when A is
    symmetric (in exact arithmetic). *)
Theorem mandel_keeps_scalar_product (A B : ndarray R) :
  shape A = [3; 3] -> shape B = [3; 3] ->
  (exists a9 b9, to_mandel9 A = Ok a9 /\ to_mandel9 B = Ok b9 /\
                 dot 9 a9 b9 = frobenius A B) /\
  (symmetric A ->
   exists a6 b6, to_mandel6 A = Ok a6 /\ to_mandel6 B = Ok b6 /\
                 dot 6 a6 b6 = frobenius A B).
Proof.
  intros HA HB. split; [|intros Hsym].
  - rewrite !to_mandel9_t2 by assumption. unfold tensor2_to_mandel9.
    rewrite !tensor2_to_mandel_ok with (K := 9) by (exact shape_BASE9 || assumption).
    do 2 eexists. split; [reflexivity|]. split; [reflexivity|].
    apply (isometry9 (fun i j => item A [i; j]) (fun i j => item B [i; j])).
  - rewrite !to_mandel6_t2 by assumption. unfold tensor2_to_mandel6.
    rewrite !tensor2_to_mandel_ok with (K := 6) by (exact shape_BASE6 || assumption).
    do 2 eexists. split; [reflexivity|]. split; [reflexivity|].
    apply (isometry6 (fun i j => item A [i; j]) (fun i j => item B [i; j])).
    exact Hsym.
Qed.

Lemma mandel_keeps_scalar_product_witness :
  (exists a9 b9 : ndarray R,
     to_mandel9 arange9 = Ok a9 /\ to_mandel9 (ones [3; 3]) = Ok b9 /\
     dot 9 a9 b9 = frobenius arange9 (ones [3; 3])) /\
  (exists a6 b6 : ndarray R,
     to_mandel6 (ones [3; 3]) = Ok a6 /\ to_mandel6 arange9 = Ok b6 /\
     dot 6 a6 b6 = frobenius (ones [3; 3]) arange9).
Proof.
  split.
  - apply (proj1 (mandel_keeps_scalar_product arange9 (ones [3; 3])
                    eq_refl eq_refl)).
  - apply (proj2 (mandel_keeps_scalar_product (ones [3; 3]) arange9
                    eq_refl eq_refl)).
    intros i j _ _. reflexivity.
Defined.

(** X12 -- The reduced matrix acts as the tensor: for a 3x3x3x3 array T
    and a 3x3 array E, the product of the matrix [to_mandel9(T)] with the
    vector [to_mandel9(E)] is [to_mandel9] of the double contraction
    [T : E]; the same holds for [to_mandel6] when E is symmetric (in exact
    arithmetic). *)
Theorem mandel_matrix_is_double_contraction (T E : ndarray R) :
  shape T = [3; 3; 3; 3] -> shape E = [3; 3] ->
  (exists mT mE mTE,
     to_mandel9 T = Ok mT /\ to_mandel9 E = Ok mE /\
     to_mandel9 (contracted T E) = Ok mTE /\
     forall a, a < 9 -> matvec 9 mT mE a = item mTE [a]) /\
  (symmetric E ->
   exists mT mE mTE,
     to_mandel6 T = Ok mT /\ to_mandel6 E = Ok mE /\
     to_mandel6 (contracted T E) = Ok mTE /\
     forall a, a < 6 -> matvec 6 mT mE a = item mTE [a]).
Proof.
  intros HT HE. split; [|intros Hsym].
  - rewrite to_mandel9_t4 by assumption.
    rewrite !to_mandel9_t2 by (assumption || reflexivity).
    unfold tensor2_to_mandel9, tensor4_to_mandel9.
    rewrite tensor4_to_mandel_ok with (K := 9) by (exact shape_BASE9 || assumption).
    rewrite !tensor2_to_mandel_ok with (K := 9)
      by (exact shape_BASE9 || assumption || reflexivity).
    do 3 eexists. do 3 (split; [reflexivity|]).
    intros a Ha.
    change (sum_range 9 (fun b =>
              project4 BASE9 T a b * contract BASE9 (fun k l => item E [k; l]) b)%R
            = contract BASE9 (double_contraction T E) a).
    rewrite <- contract_double.
    rewrite <- (isometry9 (fun k l => contract BASE9 (fun i j => item T [i; j; k; l]) a)
                          (fun k l => item E [k; l])).
    apply sum_range_ext. intros b Hb. now rewrite project4_pairs.
  - rewrite to_mandel6_t4 by assumption.
    rewrite !to_mandel6_t2 by (assumption || reflexivity).
    unfold tensor2_to_mandel6, tensor4_to_mandel6.
    rewrite tensor4_to_mandel_ok with (K := 6) by (exact shape_BASE6 || assumption).
    rewrite !tensor2_to_mandel_ok with (K := 6)
      by (exact shape_BASE6 || assumption || reflexivity).
    do 3 eexists. do 3 (split; [reflexivity|]).
    intros a Ha.
    change (sum_range 6 (fun b =>
              project4 BASE6 T a b * contract BASE6 (fun k l => item E [k; l]) b)%R
            = contract BASE6 (double_contraction T E) a).
    rewrite <- contract_double.
    transitivity
      (sum_range 3 (fun k => sum_range 3 (fun l =>
         item E [k; l] * contract BASE6 (fun i j => item T [i; j; k; l]) a))%R).
    + rewrite <- (isometry6 (fun k l => item E [k; l])
                   (fun k l => contract BASE6 (fun i j => item T [i; j; k; l]) a))
        by exact Hsym.
      apply sum_range_ext. intros b Hb. rewrite project4_pairs.
      apply Rmult_comm.
    + apply sum_range_ext. intros k Hk. apply sum_range_ext. intros l Hl.
      apply Rmult_comm.
Qed.

Lemma mandel_matrix_is_double_contraction_witness :
  (exists mT mE mTE : ndarray R,
     to_mandel9 unit4 = Ok mT /\ to_mandel9 arange9 = Ok mE /\
     to_mandel9 (contracted unit4 arange9) = Ok mTE /\
     forall a, a < 9 -> matvec 9 mT mE a = item mTE [a]) /\
  (exists mT mE mTE : ndarray R,
     to_mandel6 unit4 = Ok mT /\ to_mandel6 (ones [3; 3]) = Ok mE /\
     to_mandel6 (contracted unit4 (ones [3; 3])) = Ok mTE /\
     forall a, a < 6 -> matvec 6 mT mE a = item mTE [a]).
Proof.
  split.
  - apply (proj1 (mandel_matrix_is_double_contraction unit4 arange9
                    eq_refl eq_refl)).
  - apply (proj2 (mandel_matrix_is_double_contraction unit4 (ones [3; 3])
                    eq_refl eq_refl)).
    intros i j _ _. reflexivity.
Defined.

(** ** Voigt notation: inverses, duality, physical meaning *)

(** Both Voigt functions on an array with enough axes for the quantity,
    item by item. *)
Lemma voigt_items (x : ndarray R) (q : string) :
  In q voigt_types -> quantity_ndim q <= ndim x ->
  exists fs v m,
    dict_get String.eqb KStr factors_mandel_to_voigt q = Ok fs /\
    mandel6_to_voigt x q = Ok v /\ voigt_to_mandel6 x q = Ok m /\
    shape v = shape x /\ shape m = shape x /\
    (forall idx, item v idx = segment_scan np_mul (item x) fs (item x) idx) /\
    (forall idx, item m idx = segment_scan unscale (item x) fs (item x) idx).
Proof.
  intros Hq Hn.
  destruct (voigt_type_known (S:=R) q Hq) as [fs Hfs].
  pose proof (quantity_fits x q fs Hfs Hn) as Hfit.
  destruct (mandel6_to_voigt_ok x q fs Hfs Hfit) as (v & Hv & Hvs & Hvi).
  destruct (voigt_to_mandel6_ok x q fs Hfs Hfit) as (m & Hm & Hms & Hmi).
  exists fs, v, m. auto 10.
Qed.

(** Decide every segment test on a symbolic index, then compare. *)
Ltac by_segments :=
  cbn [segment_scan]; unfold unscale; cbn [np_mul np_div np_one exact];
  repeat match goal with
         | |- context [in_position ?p ?i] => destruct (in_position p i)
         end;
  try reflexivity; field; exact sqrt2_neq_0.

(** X13 -- The two Voigt functions are inverse to each other in both
    orders, and the quantities are dual in pairs: converting to Voigt as
    'strain' is converting from Voigt as 'stress' and conversely, and
    likewise for 'compliance' and 'stiffness' (in exact arithmetic, for an
    array of the order of the quantity). *)
Theorem voigt_inverse_and_dual (x : ndarray R) (q : string) :
  In q voigt_types -> shape x = quantity_shape q ->
  (exists m v, voigt_to_mandel6 x q = Ok m /\ mandel6_to_voigt m q = Ok v /\
               array_eq v x) /\
  (exists m v, voigt_to_mandel6 x q = Ok m /\
               mandel6_to_voigt x (dual_quantity q) = Ok v /\
               array_eq m v).
Proof.
  intros Hq Hs.
  assert (Hn : quantity_ndim q <= ndim x)
    by (unfold quantity_ndim, ndim; now rewrite Hs).
  destruct (voigt_items x q Hq Hn)
    as (fs & v & m & Hfs & Hv & Hm & Hvs & Hms & Hvi & Hmi).
  split.
  - assert (Hn' : quantity_ndim q <= ndim m)
      by (unfold ndim; rewrite Hms; exact Hn).
    destruct (voigt_items m q Hq Hn')
      as (fs' & v' & m' & Hfs' & Hv' & Hm' & Hvs' & Hms' & Hvi' & Hmi').
    exists m, v'. split; [assumption|]. split; [assumption|].
    split; [congruence|].
    intros idx _. rewrite Hvi'. rewrite Hfs in Hfs'. injection Hfs' as <-.
    clear - Hq Hfs Hmi. simpl in Hq.
    repeat (destruct Hq as [<-|Hq]); [ .. | contradiction];
      injection Hfs as <-; cbn [segment_scan]; rewrite !Hmi; by_segments.
  - assert (Hq2 : In (dual_quantity q) voigt_types /\
                  quantity_ndim (dual_quantity q) = quantity_ndim q).
    { simpl in Hq.
      repeat (destruct Hq as [<-|Hq]); [ .. | contradiction];
        (split; [simpl; auto 6 | reflexivity]). }
    destruct Hq2 as [Hq2 Hn2]. rewrite <- Hn2 in Hn.
    destruct (voigt_items x (dual_quantity q) Hq2 Hn)
      as (fs2 & v2 & m2 & Hfs2 & Hv2 & _ & Hvs2 & _ & Hvi2 & _).
    exists m, v2. split; [assumption|]. split; [assumption|].
    split; [congruence|]. intros idx _. rewrite Hmi, Hvi2.
    clear - Hq Hfs Hfs2. simpl in Hq.
    repeat (destruct Hq as [<-|Hq]); [ .. | contradiction];
      injection Hfs as <-; injection Hfs2 as <-; by_segments.
Qed.

Lemma voigt_inverse_and_dual_witness :
  (exists m v : ndarray R,
     voigt_to_mandel6 (ones [6; 6]) "stiffness" = Ok m /\
     mandel6_to_voigt m "stiffness" = Ok v /\ array_eq v (ones [6; 6])) /\
  (exists m v : ndarray R,
     voigt_to_mandel6 (ones [6; 6]) "stiffness" = Ok m /\
     mandel6_to_voigt (ones [6; 6]) (dual_quantity "stiffness") = Ok v /\
     array_eq m v).
Proof.
  apply (voigt_inverse_and_dual (ones [6; 6]) "stiffness").
  - simpl. auto.
  - reflexivity.
Defined.

(** Close an equation between polynomials in [sqrt 2] and [1 / sqrt 2]. *)
Ltac by_sqrt2_ideal :=
  first [ field_simplify_eq; [ | exact sqrt2_neq_0 ] | field_simplify_eq ];
  generalize sqrt2_sq; generalize (sqrt 2); intros r Hr; cbn [pow]; nsatz.

(** X14 -- Voigt notation keeps the physics of Mandel notation: for
    Mandel6 arrays s, e of shape (6,) and C of shape (6,6), the Voigt
    forms satisfy: stress dot strain is unchanged; if [s = C e] then
    Voigt stress = Voigt stiffness times Voigt strain; if [e = C s] then
    Voigt strain = Voigt compliance times Voigt stress (in exact
    arithmetic). *)
Theorem voigt_keeps_hooke (s e C : ndarray R) :
  shape s = [6] -> shape e = [6] -> shape C = [6; 6] ->
  exists vs ve vC vS,
    mandel6_to_voigt s "stress" = Ok vs /\
    mandel6_to_voigt e "strain" = Ok ve /\
    mandel6_to_voigt C "stiffness" = Ok vC /\
    mandel6_to_voigt C "compliance" = Ok vS /\
    dot 6 vs ve = dot 6 s e /\
    ((forall a, a < 6 -> item s [a] = matvec 6 C e a) ->
     forall a, a < 6 -> item vs [a] = matvec 6 vC ve a) /\
    ((forall a, a < 6 -> item e [a] = matvec 6 C s a) ->
     forall a, a < 6 -> item ve [a] = matvec 6 vS vs a).
Proof.
  intros Hs He HC.
  destruct (voigt_items s "stress") as (f1 & vs & ? & Hf1 & Hvs & _ & _ & _ & Es & _);
    [simpl; auto | unfold ndim; rewrite Hs; cbn; lia |].
  destruct (voigt_items e "strain") as (f2 & ve & ? & Hf2 & Hve & _ & _ & _ & Ee & _);
    [simpl; auto | unfold ndim; rewrite He; cbn; lia |].
  destruct (voigt_items C "stiffness") as (f3 & vC & ? & Hf3 & HvC & _ & _ & _ & EC & _);
    [simpl; auto | unfold ndim; rewrite HC; cbn; lia |].
  destruct (voigt_items C "compliance") as (f4 & vS & ? & Hf4 & HvS & _ & _ & _ & ES & _);
    [simpl; auto 6 | unfold ndim; rewrite HC; cbn; lia |].
  injection Hf1 as <-. injection Hf2 as <-. injection Hf3 as <-. injection Hf4 as <-.
  exists vs, ve, vC, vS. do 4 (split; [assumption|]).
  split; [|split].
  - unfold dot. cbn [sum_range np_add np_zero exact].
    rewrite !Es, !Ee. eval_items. by_sqrt2_ideal.
  - intros Hooke a Ha. unfold matvec. cbn [sum_range np_add np_zero exact].
    rewrite !Es, !Ee, !EC.
    below6 a; eval_items; rewrite Hooke by lia; unfold matvec;
      cbn [sum_range np_add np_zero exact]; by_sqrt2_ideal.
  - intros Hooke a Ha. unfold matvec. cbn [sum_range np_add np_zero exact].
    rewrite !Es, !Ee, !ES.
    below6 a; eval_items; rewrite Hooke by lia; unfold matvec;
      cbn [sum_range np_add np_zero exact]; by_sqrt2_ideal.
Qed.

Lemma voigt_keeps_hooke_witness :
  exists vs ve vC vS : ndarray R,
    mandel6_to_voigt (full [6] 6%R) "stress" = Ok vs /\
    mandel6_to_voigt (ones [6]) "strain" = Ok ve /\
    mandel6_to_voigt (ones [6; 6]) "stiffness" = Ok vC /\
    mandel6_to_voigt (ones [6; 6]) "compliance" = Ok vS /\
    dot 6 vs ve = dot 6 (full [6] 6%R) (ones [6]) /\
    forall a, a < 6 -> item vs [a] = matvec 6 vC ve a.
Proof.
  destruct (voigt_keeps_hooke (full [6] 6%R) (ones [6]) (ones [6; 6])
              eq_refl eq_refl eq_refl)
    as (vs & ve & vC & vS & H1 & H2 & H3 & H4 & Hd & Hh & _).
  exists vs, ve, vC, vS. repeat split; try assumption.
  apply Hh. intros a Ha. unfold matvec. simpl. lra.
Defined.

(** ** Voigt components of a tensor *)

Section Components.
Local Open Scope R_scope.

(** The a-th Mandel6 component of a 3x3 block. *)
Lemma contract6_pair (X : nat -> nat -> R) a :
  (a < 6)%nat ->
  contract BASE6 X a =
  dyad_weight a * (X (fst (voigt_pair a)) (snd (voigt_pair a)) +
                   X (snd (voigt_pair a)) (fst (voigt_pair a))).
Proof.
  intros Ha. unfold contract, dyad_weight.
  below6 a; eval_items; field.
Qed.

Lemma project4_6_pairs (T : ndarray R) a b :
  (a < 6)%nat -> (b < 6)%nat ->
  project4 BASE6 T a b = dyad_weight a * dyad_weight b * minor_sum_at T a b.
Proof.
  intros Ha Hb. rewrite project4_pairs.
  rewrite contract6_pair by assumption.
  rewrite !(contract6_pair (fun i j => item T [i; j; _; _]) a) by assumption.
  unfold minor_sum_at, minor_sum. ring.
Qed.

End Components.

(** Evaluate the segment tests of a Voigt loop at a concrete index. *)
Ltac eval_segments :=
  cbv [segment_scan in_position in_slice shear quadrant2 quadrant3 quadrant4
       Nat.leb Nat.ltb andb];
  cbn [np_mul exact].

(** X15 -- Voigt components of a second-order tensor: for a 3x3 array T,
    with (i, j) the index pair of component a, the Voigt stress of
    [to_mandel6(T)] has the components [(T[i,j] + T[j,i]) / 2] and the
    Voigt strain has [T[i,i]] for a < 3 and [T[i,j] + T[j,i]] for the
    shear components: for a symmetric T, the plain components and the
    doubled (engineering) shear strains (in exact arithmetic). *)
Theorem voigt_components_order2 (T : ndarray R) :
  shape T = [3; 3] ->
  exists m vs ve,
    to_mandel6 T = Ok m /\
    mandel6_to_voigt m "stress" = Ok vs /\
    mandel6_to_voigt m "strain" = Ok ve /\
    forall a, a < 6 ->
      (2 * item vs [a] = pair_sum T a)%R /\
      (2 * item ve [a] = shear_weight a * pair_sum T a)%R.
Proof.
  intros H. rewrite to_mandel6_t2 by exact H. unfold tensor2_to_mandel6.
  rewrite tensor2_to_mandel_ok with (K := 6) by (exact shape_BASE6 || exact H).
  set (m := mk_array _ _).
  assert (Hm : forall a, item m [a] = contract BASE6 (fun i j => item T [i; j]) a)
    by reflexivity.
  assert (Hsh : shape m = [6]) by reflexivity.
  clearbody m.
  destruct (voigt_items m "stress")
    as (f1 & vs & ? & Hf1 & Hvs & _ & _ & _ & Es & _);
    [simpl; auto | unfold ndim; rewrite Hsh; cbn; lia |].
  destruct (voigt_items m "strain")
    as (f2 & ve & ? & Hf2 & Hve & _ & _ & _ & Ee & _);
    [simpl; auto | unfold ndim; rewrite Hsh; cbn; lia |].
  injection Hf1 as <-. injection Hf2 as <-.
  exists m, vs, ve. split; [reflexivity|]. do 2 (split; [assumption|]).
  intros a Ha. rewrite Es, Ee.
  below6 a; eval_segments; rewrite Hm, contract6_pair by lia;
    unfold pair_sum, dyad_weight, shear_weight; cbn [Nat.ltb Nat.leb];
    split; by_sqrt2_ideal.
Qed.

(** X16 -- Voigt components of a fourth-order tensor: for a 3x3x3x3 array
    T, with (i, j) and (k, l) the index pairs of row a and column b, the
    Voigt stiffness of [to_mandel6(T)] has the items
    [(T[i,j,k,l] + T[j,i,k,l] + T[i,j,l,k] + T[j,i,l,k]) / 4], the plain
    component [T[i,j,k,l]] of a minor-symmetric T; the Voigt compliance
    has the same with a factor 2 for each shear index (in exact
    arithmetic). *)
Theorem voigt_components_order4 (T : ndarray R) :
  shape T = [3; 3; 3; 3] ->
  exists m vC vS,
    to_mandel6 T = Ok m /\
    mandel6_to_voigt m "stiffness" = Ok vC /\
    mandel6_to_voigt m "compliance" = Ok vS /\
    forall a b, a < 6 -> b < 6 ->
      (4 * item vC [a; b] = minor_sum_at T a b)%R /\
      (4 * item vS [a; b] =
         shear_weight a * shear_weight b * minor_sum_at T a b)%R.
Proof.
  intros H. rewrite to_mandel6_t4 by exact H. unfold tensor4_to_mandel6.
  rewrite tensor4_to_mandel_ok with (K := 6) by (exact shape_BASE6 || exact H).
  set (m := mk_array _ _).
  assert (Hm : forall a b, item m [a; b] = project4 BASE6 T a b)
    by reflexivity.
  assert (Hsh : shape m = [6; 6]) by reflexivity.
  clearbody m.
  destruct (voigt_items m "stiffness")
    as (f1 & vC & ? & Hf1 & HvC & _ & _ & _ & EC & _);
    [simpl; auto | unfold ndim; rewrite Hsh; cbn; lia |].
  destruct (voigt_items m "compliance")
    as (f2 & vS & ? & Hf2 & HvS & _ & _ & _ & ES & _);
    [simpl; auto 6 | unfold ndim; rewrite Hsh; cbn; lia |].
  injection Hf1 as <-. injection Hf2 as <-.
  exists m, vC, vS. split; [reflexivity|]. do 2 (split; [assumption|]).
  intros a b Ha Hb. rewrite EC, ES.
  below6 a; below6 b; eval_segments; rewrite Hm, project4_6_pairs by lia;
    unfold dyad_weight, shear_weight; cbn [Nat.ltb Nat.leb];
    generalize (minor_sum_at T); intros S4;
    split; by_sqrt2_ideal.
Qed.

Lemma voigt_components_order2_witness :
  exists m vs ve : ndarray R,
    to_mandel6 arange9 = Ok m /\
    mandel6_to_voigt m "stress" = Ok vs /\
    mandel6_to_voigt m "strain" = Ok ve /\
    forall a, a < 6 ->
      (2 * item vs [a] = pair_sum arange9 a)%R /\
      (2 * item ve [a] = shear_weight a * pair_sum arange9 a)%R.
Proof. apply (voigt_components_order2 arange9). reflexivity. Defined.

Lemma voigt_components_order4_witness :
  exists m vC vS : ndarray R,
    to_mandel6 unit4 = Ok m /\
    mandel6_to_voigt m "stiffness" = Ok vC /\
    mandel6_to_voigt m "compliance" = Ok vS /\
    forall a b, a < 6 -> b < 6 ->
      (4 * item vC [a; b] = minor_sum_at unit4 a b)%R /\
      (4 * item vS [a; b] =
         shear_weight a * shear_weight b * minor_sum_at unit4 a b)%R.
Proof. apply (voigt_components_order4 unit4). reflexivity. Defined.

(** ** Reading a Mandel vector *)

Section Reading.
Local Open Scope R_scope.

Lemma contract9_first6 (X : nat -> nat -> R) a :
  (a < 6)%nat -> contract BASE9 X a = contract BASE6 X a.
Proof.
  intros Ha. unfold contract. apply sum_range_ext. intros i _.
  apply sum_range_ext. intros j _. now rewrite BASE9_first6.
Qed.

(** The item [j, k] of the expansion of a Mandel6 vector. *)
Lemma expand6_pair (v : nat -> R) a :
  (a < 6)%nat ->
  expand 6 BASE6 v (fst (voigt_pair a)) (snd (voigt_pair a)) =
    (if (a <? 3)%nat then 1 else sqrt 2 / 2) * v a /\
  expand 6 BASE6 v (snd (voigt_pair a)) (fst (voigt_pair a)) =
    (if (a <? 3)%nat then 1 else sqrt 2 / 2) * v a.
Proof.
  intros Ha. unfold expand. below6 a; split; eval_items; ring.
Qed.

End Reading.

(** X17 -- Reading the reduced vectors of a 3x3 array T, with (i, j) the
    index pair of component a: the components 0-2 of [to_mandel6(T)] and
    of [to_mandel9(T)] are the diagonal items of T, the components 3-5
    are [(T[i,j] + T[j,i]) * sqrt 2 / 2] (for a symmetric T, [sqrt 2]
    times the off-diagonal item), and the components 6-8 of
    [to_mandel9(T)] are [sqrt 2 / 2] times [T[2,1] - T[1,2]],
    [T[0,2] - T[2,0]], [T[1,0] - T[0,1]]; conversely [to_tensor] of a (6,)
    array m puts [m[a]] on the diagonal (a < 3) and [m[a] * sqrt 2 / 2] on
    both off-diagonal positions of pair a (in exact arithmetic). *)
Theorem mandel_components (T : ndarray R) (m : ndarray R) :
  (shape T = [3; 3] ->
     exists m6 m9,
       to_mandel6 T = Ok m6 /\ to_mandel9 T = Ok m9 /\
       (forall a, a < 6 ->
          item m6 [a] = (dyad_weight a * pair_sum T a)%R /\
          item m9 [a] = (dyad_weight a * pair_sum T a)%R) /\
       item m9 [6] = (sqrt 2 / 2 * (item T [2; 1]%nat - item T [1; 2]%nat))%R /\
       item m9 [7] = (sqrt 2 / 2 * (item T [0; 2]%nat - item T [2; 0]%nat))%R /\
       item m9 [8] = (sqrt 2 / 2 * (item T [1; 0]%nat - item T [0; 1]%nat))%R) /\
  (shape m = [6] ->
     exists T', to_tensor m = Ok T' /\
       forall a, a < 6 ->
         item T' [fst (voigt_pair a); snd (voigt_pair a)] =
           ((if a <? 3 then 1 else sqrt 2 / 2) * item m [a])%R /\
         item T' [snd (voigt_pair a); fst (voigt_pair a)] =
           ((if a <? 3 then 1 else sqrt 2 / 2) * item m [a])%R).
Proof.
  split; intros H.
  - rewrite to_mandel6_t2, to_mandel9_t2 by exact H.
    unfold tensor2_to_mandel6, tensor2_to_mandel9.
    rewrite tensor2_to_mandel_ok with (K := 6) by (exact shape_BASE6 || exact H).
    rewrite tensor2_to_mandel_ok with (K := 9) by (exact shape_BASE9 || exact H).
    do 2 eexists. do 2 (split; [reflexivity|]).
    set (X := fun i j => item T [i; j]).
    destruct (contract9_skew X) as (E6 & E7 & E8).
    split; [|split; [exact E6 | split; [exact E7 | exact E8]]].
    intros a Ha.
    change (contract BASE6 X a = (dyad_weight a * pair_sum T a)%R /\
            contract BASE9 X a = (dyad_weight a * pair_sum T a)%R).
    rewrite contract9_first6 by exact Ha.
    split; now apply contract6_pair.
  - rewrite to_tensor_m6_2 by exact H. unfold mandel6_2_to_tensor.
    rewrite mandel_2_to_tensor_ok with (K := 6) by (exact shape_BASE6 || exact H).
    eexists. split; [reflexivity|].
    intros a Ha. apply (expand6_pair (fun a => item m [a]) a Ha).
Qed.

Lemma mandel_components_witness :
  (exists m6 m9 : ndarray R,
     to_mandel6 arange9 = Ok m6 /\ to_mandel9 arange9 = Ok m9 /\
     (forall a, a < 6 ->
        item m6 [a] = (dyad_weight a * pair_sum arange9 a)%R /\
        item m9 [a] = (dyad_weight a * pair_sum arange9 a)%R) /\
     item m9 [6] = (sqrt 2 / 2 * (item arange9 [2; 1]%nat - item arange9 [1; 2]%nat))%R /\
     item m9 [7] = (sqrt 2 / 2 * (item arange9 [0; 2]%nat - item arange9 [2; 0]%nat))%R /\
     item m9 [8] = (sqrt 2 / 2 * (item arange9 [1; 0]%nat - item arange9 [0; 1]%nat))%R) /\
  (exists T' : ndarray R, to_tensor (ones [6]) = Ok T' /\
     forall a, a < 6 ->
       item T' [fst (voigt_pair a); snd (voigt_pair a)] =
         ((if a <? 3 then 1 else sqrt 2 / 2) * item (ones [6]%nat) [a])%R /\
       item T' [snd (voigt_pair a); fst (voigt_pair a)] =
         ((if a <? 3 then 1 else sqrt 2 / 2) * item (ones [6]%nat) [a])%R).
Proof.
  split.
  - apply (proj1 (mandel_components arange9 (ones [6]))). reflexivity.
  - apply (proj2 (mandel_components arange9 (ones [6]))). reflexivity.
Defined.

(** X18 -- For a symmetric 3x3 array, and for a minor-symmetric 3x3x3x3
    array, Mandel6 loses nothing: [to_mandel9(to_mandel6(T))] has the
    shape and the items of [to_mandel9(T)] (in exact arithmetic). *)
Theorem mandel6_suffices_for_symmetric (T : ndarray R) :
  (shape T = [3; 3] -> symmetric T ->
     exists m6 m9 m9', to_mandel6 T = Ok m6 /\ to_mandel9 m6 = Ok m9 /\
                       to_mandel9 T = Ok m9' /\ array_eq m9 m9') /\
  (shape T = [3; 3; 3; 3] -> minor_symmetric T ->
     exists m6 m9 m9', to_mandel6 T = Ok m6 /\ to_mandel9 m6 = Ok m9 /\
                       to_mandel9 T = Ok m9' /\ array_eq m9 m9').
Proof.
  split; intros H Hsym.
  - rewrite to_mandel6_t2, to_mandel9_t2 by exact H.
    unfold tensor2_to_mandel6, tensor2_to_mandel9.
    rewrite tensor2_to_mandel_ok with (K := 6) by (exact shape_BASE6 || exact H).
    rewrite tensor2_to_mandel_ok with (K := 9) by (exact shape_BASE9 || exact H).
    do 3 eexists. split; [reflexivity|].
    rewrite to_mandel9_m6_2 by reflexivity. unfold mandel6_2_to_mandel9.
    rewrite setslice_ok by solve [cbn; lia | reflexivity].
    split; [reflexivity|]. split; [reflexivity|]. split; [reflexivity|].
    intros idx Hb. change (in_bounds [9] idx = true) in Hb. split_index Hb.
    match goal with
    | Ha : ?a < 9 |- _ =>
        change ((if in_position [SLICE6] [a]
                 then contract BASE6 (fun i j => item T [i; j]) (a - 0)
                 else 0%R) = contract BASE9 (fun i j => item T [i; j]) a);
        simpl_slices; rewrite ?Nat.sub_0_r;
        destruct (Nat.ltb_spec a 6)
    end.
    + now rewrite contract9_first6.
    + symmetry. apply contract9_skew_zero; [lia | exact Hsym].
  - rewrite to_mandel6_t4, to_mandel9_t4 by exact H.
    unfold tensor4_to_mandel6, tensor4_to_mandel9.
    rewrite tensor4_to_mandel_ok with (K := 6) by (exact shape_BASE6 || exact H).
    rewrite tensor4_to_mandel_ok with (K := 9) by (exact shape_BASE9 || exact H).
    do 3 eexists. split; [reflexivity|].
    rewrite to_mandel9_m6_4 by reflexivity. unfold mandel6_4_to_mandel9.
    rewrite setslice_ok by solve [cbn; lia | reflexivity].
    split; [reflexivity|]. split; [reflexivity|]. split; [reflexivity|].
    intros idx Hb. change (in_bounds [9; 9] idx = true) in Hb. split_index Hb.
    match goal with
    | Ha : ?a < 9, Hb' : ?b < 9 |- _ ?M [?a; ?b] = _ =>
        change ((if in_position [SLICE6; SLICE6] [a; b]
                 then project4 BASE6 T (a - 0) (b - 0)
                 else 0%R) = project4 BASE9 T a b);
        simpl_slices; rewrite ?Nat.sub_0_r;
        destruct (Nat.ltb_spec a 6); destruct (Nat.ltb_spec b 6); cbn [andb]
    end.
    1: { rewrite !project4_pairs. rewrite contract9_first6 by assumption.
         apply contract_ext. intros k l _ _. now rewrite contract9_first6. }
    all: symmetry; rewrite project4_pairs.
    1, 3: apply contract9_skew_zero; [lia|]; intros k l Hk Hl;
      apply contract_ext; intros p q Hp Hq; now apply Hsym.
    apply contract_zero. intros k l Hk Hl.
    apply contract9_skew_zero; [lia|]. intros p q Hp Hq. now apply Hsym.
Qed.

Lemma mandel6_suffices_for_symmetric_witness :
  (exists m6 m9 m9' : ndarray R,
     to_mandel6 (ones [3; 3]) = Ok m6 /\ to_mandel9 m6 = Ok m9 /\
     to_mandel9 (ones [3; 3]) = Ok m9' /\ array_eq m9 m9') /\
  (exists m6 m9 m9' : ndarray R,
     to_mandel6 ones4 = Ok m6 /\ to_mandel9 m6 = Ok m9 /\
     to_mandel9 ones4 = Ok m9' /\ array_eq m9 m9').
Proof.
  split.
  - apply (proj1 (mandel6_suffices_for_symmetric (ones [3; 3]))).
    + reflexivity.
    + intros i j _ _. reflexivity.
  - apply (proj2 (mandel6_suffices_for_symmetric ones4)).
    + reflexivity.
    + intros i j k l _ _ _ _. split; reflexivity.
Defined.

(** ** What the Voigt functions leave alone *)

Section Untouched.
Context {S : Type} {D : Dtype S}.

Lemma below3_outside_shear (i : nat) : i < 3 -> in_slice (Range 3 6) i = false.
Proof.
  intros H. unfold in_slice. apply andb_false_iff. left.
  apply Nat.leb_gt. exact H.
Qed.

(** No listed segment holds an index whose entries are all below 3. *)
Lemma normal_outside_segments (idx : list nat) (p : position) :
  In p [shear; quadrant2; quadrant3; quadrant4] ->
  Forall (fun i => i < 3) idx -> in_position p idx = false.
Proof.
  intros Hp Hidx. simpl in Hp.
  destruct idx as [|i [|j r]];
    repeat (destruct Hp as [<-|Hp]); try contradiction; try reflexivity;
    inversion Hidx as [|? ? Hi Hr]; subst;
    try (inversion Hr as [|? ? Hj Hr']; subst);
    cbn [in_position shear quadrant2 quadrant3 quadrant4];
    rewrite ?(below3_outside_shear _ Hi), ?(below3_outside_shear _ Hj),
      ?andb_false_r; reflexivity.
Qed.

Lemma segment_scan_outside (op : S -> S -> S) src fs : forall acc idx,
  (forall p c, In (p, c) fs -> in_position p idx = false) ->
  segment_scan op src fs acc idx = acc idx.
Proof.
  induction fs as [|[p c] fs IH]; intros acc idx Hout; cbn [segment_scan].
  - reflexivity.
  - rewrite IH by (intros p' c' Hin; apply (Hout p' c'); now right).
    now rewrite (Hout p c) by now left.
Qed.

(** X19 -- At every dtype, bit for bit: the Voigt functions keep the
    shape of their input and return unchanged every item whose indices
    are all below 3 (the normal components of a vector, the normal-normal
    block of a matrix), for each of the four quantities and every array
    with enough axes. *)
Theorem voigt_keeps_normal_components (x : ndarray S) (q : string) :
  In q voigt_types -> quantity_ndim q <= ndim x ->
  exists v m,
    mandel6_to_voigt x q = Ok v /\ voigt_to_mandel6 x q = Ok m /\
    shape v = shape x /\ shape m = shape x /\
    forall idx, Forall (fun i => i < 3) idx ->
      item v idx = item x idx /\ item m idx = item x idx.
Proof.
  intros Hq Hn.
  destruct (voigt_type_known (S:=S) q Hq) as [fs Hfs].
  pose proof (quantity_fits x q fs Hfs Hn) as Hfit.
  destruct (mandel6_to_voigt_ok x q fs Hfs Hfit) as (v & Hv & Hvs & Hvi).
  destruct (voigt_to_mandel6_ok x q fs Hfs Hfit) as (m & Hm & Hms & Hmi).
  exists v, m. do 4 (split; [assumption|]).
  intros idx Hidx. rewrite Hvi, Hmi.
  assert (Hout : forall p c, In (p, c) fs -> in_position p idx = false).
  { intros p c Hin. apply normal_outside_segments; [|exact Hidx].
    clear - Hq Hfs Hin. simpl in Hq.
    repeat (destruct Hq as [<-|Hq]); [ .. | contradiction];
      injection Hfs as <-; simpl in Hin;
      repeat (destruct Hin as [[= <- _]|Hin]); try contradiction;
      simpl; auto. }
  split; now apply segment_scan_outside.
Qed.

End Untouched.

Lemma voigt_keeps_normal_components_witness :
  exists v m : ndarray float,
    mandel6_to_voigt (ones [6]) "stress" = Ok v /\
    voigt_to_mandel6 (ones [6]) "stress" = Ok m /\
    shape v = [6] /\ shape m = [6] /\
    forall idx, Forall (fun i => i < 3) idx ->
      item v idx = item (ones [6]) idx /\ item m idx = item (ones [6]) idx.
Proof.
  apply (voigt_keeps_normal_components (ones (D:=float64) [6]) "stress").
  - simpl. auto.
  - vm_compute. lia.
Defined.

(* ================================================================== *)
(** * Round trips: exact arithmetic and binary64 *)

(** The round trips are identities of exact arithmetic.  A binary64 run
    rounds every product and sum, cancels and overflows, so that no
    tolerance holds for all finite inputs; what holds of every run, at
    every dtype, is stated beside the exact identity. *)

Section EveryDtype.
Context {S : Type} {D : Dtype S}.

Lemma roundtrip9_returns (T : ndarray S) :
  shape T = [3; 3] \/ shape T = [3; 3; 3; 3] ->
  exists T', roundtrip9 T = Ok T' /\ shape T' = shape T.
Proof.
  intros H. destruct T as [shp it]. simpl in H.
  destruct H as [-> | ->]; eexists; split; reflexivity.
Qed.






End EveryDtype.

(** [unit4[0,1,0,0] = 1] and [unit4[1,0,0,0] = 0]. *)
Lemma unit4_not_minor_symmetric : ~ minor_symmetric unit4.
Proof.
  intros H.
  destruct (H 0 1 0 0) as [E _]; try lia.
  simpl in E. lra.
Qed.





(** Two binary64 numbers that are equal are equal for [==]. *)
Lemma float_eq_eqb (x y : float) :
  x = y -> PrimFloat.eqb x y = PrimFloat.eqb y y.
Proof. now intros ->. Qed.

Lemma skew19_not_minor_symmetric : ~ minor_symmetric_items skew19.
Proof.
  intros H. destruct (H 0 1 0 0) as [E _]; try lia.
  apply float_eq_eqb in E. vm_compute in E. discriminate.
Qed.

(** [skew19] comes back from Mandel9 bit for bit. *)
Lemma skew19_roundtrip :
  exists T', roundtrip9 skew19 = Ok T' /\ array_eq T' skew19.
Proof.
  eexists. split; [reflexivity|]. split; [reflexivity|].
  intros idx Hb. change (in_bounds [3; 3; 3; 3] idx = true) in Hb.
  split_index Hb.
  repeat match goal with
         | H : ?i < 3 |- _ => is_var i; below3 i
         end; vm_compute; reflexivity.
Qed.

(** ** Mandel9 *)




(** C2, as stated, fails in binary64 as well as in exact arithmetic:
    [skew19], with the single component [T[0,1,0,0] = 19], has shape
    (3,3,3,3) and lacks minor symmetry, and its Mandel9 round trip gives
    it back bit for bit, [np.array_equal] to it. *)
Lemma mandel9_lossy_float64_counterexample :
  shape skew19 = [3; 3; 3; 3] /\
  ~ minor_symmetric_items skew19 /\ minor_symmetric_float64 skew19 = false /\
  exists T', roundtrip9 skew19 = Ok T' /\ array_eq T' skew19 /\
             np_array_equal T' skew19 = true.
Proof.
  split; [reflexivity|]. split; [exact skew19_not_minor_symmetric|].
  split; [vm_compute; reflexivity|].
  destruct skew19_roundtrip as (T' & HT' & Heq).
  exists T'. repeat split; try apply Heq; try assumption.
  injection HT' as <-. vm_compute. reflexivity.
Qed.

(** C2, amended -- for every 3x3x3x3 array T lacking minor symmetry the
    Mandel9 round trip raises no error and returns an array of the shape
    of T, at every dtype; in exact arithmetic it is lossless:
    [to_tensor(to_mandel9(T))] has the items of T, the nine dyads span all
    3x3 arrays. *)
Theorem mandel9_keeps_non_minor_symmetric :
  (forall (S : Type) (D : Dtype S) (T : ndarray S),
      shape T = [3; 3; 3; 3] -> ~ minor_symmetric_items T ->
      exists T', roundtrip9 T = Ok T' /\ shape T' = [3; 3; 3; 3]) /\
  (forall T : ndarray R,
      shape T = [3; 3; 3; 3] -> ~ minor_symmetric T ->
      (exists T', roundtrip9 T = Ok T' /\ array_eq T' T) /\
      ~ loses_information9 T).
Proof.
  split.
  - intros S D T H _.
    destruct (roundtrip9_returns T (or_intror H)) as (T' & HT' & Hsh).
    exists T'. split; [assumption | congruence].
  - intros T H _.
    destruct (roundtrip9_order4 T H) as (T' & HT' & Heq).
    split; [now exists T'|].
    intros (T'' & HT'' & Hne). apply Hne. congruence.
Qed.

Lemma mandel9_keeps_non_minor_symmetric_witness :
  (exists T', roundtrip9 skew19 = Ok T' /\ shape T' = [3; 3; 3; 3]) /\
  (exists T' : ndarray R, roundtrip9 unit4 = Ok T' /\ array_eq T' unit4) /\
  ~ loses_information9 unit4.
Proof.
  split.
  - apply (proj1 mandel9_keeps_non_minor_symmetric float float64 skew19).
    + reflexivity.
    + exact skew19_not_minor_symmetric.
  - apply (proj2 mandel9_keeps_non_minor_symmetric unit4).
    + reflexivity.
    + exact unit4_not_minor_symmetric.
Defined.

(** ** Mandel6 *)




(** ** Voigt *)



